(** * GDC-Parameters: the EN_ATM_GHGT_AIP emission pipeline

    A shallow embedding of [air/EN_ATM_GHGT_AIP.py]: the fetchers
    ([fetch_data], [parse_country_data], [fetch_eu_data]), the persistence
    layer ([save_data_to_json], [load_data_from_json]), the chart renderer
    ([plot_data]) and the part of [main] that merges the results and binds
    the dashboard callback ([update_graph]).

    Conventions of the model.
    - Python values that come out of a JSON body are terms of [json]; a
      Python [dict] with string keys is a [gmap string json] (equality of
      dicts ignores insertion order, and so does equality of gmaps),
      Python [None] is [JNull].
    - JSON numbers are integers ([Z]); floating point is outside the model.
    - [str] is [string], a byte sequence; the order on [str] is the
      lexicographic order on code points, which for UTF-8 byte sequences is
      the lexicographic order on bytes, [String.le].
    - An exception is a value of [exn]; code that can raise lives in
      [result] (pure) or in [IO] (with the world: files, standard output and
      the I/O faults the environment is going to inject).
    - Coroutines are run to completion one after the other, in the order
      [asyncio.gather] lists them; the interleaving only changes standard
      output: the order of the lines, and whether a coroutine that another
      one's exception overtook got to print its line.
    - A printed line records which [print] ran: an exception is shown by
      its class, not by its message, and the [repr] of the EU entry in the
      line of line 50 is left out.
    - The json library is an interface, [JsonCodec], with the contract that
      what was written is read back; a compact JSON writer and reader that
      keep the contract are given and proved.
    - The renderer [plot_data] works on a dataset whose emissions are
      numbers, as the data model has it; [Raw.plot_data] is the same
      renderer on the values as the decoder gives them, where an addition
      can raise. A figure is the list of its traces and its layout, as
      handed to plotly. *)

From stdpp Require Import gmap strings list sorting.
From Stdlib Require Import ZArith DecimalZ DecimalPos Ascii.

Set Warnings "-register-all,-clear-no-such-hyp".
Local Open Scope string_scope.
Local Open Scope list_scope.

(** ** Exceptions and results *)

Inductive exn : Type :=
  | ClientError       (* aiohttp: transport error, timeout, body that is not JSON *)
  | OSError           (* open / write / read / close failed, file missing *)
  | JSONDecodeError   (* json.load on malformed text *)
  | TypeError
  | AttributeError
  | KeyError
  | ValueError
  | IndexError.

(** [inl e] is "raised [e]", [inr a] is "returned [a]". *)
Definition result (A : Type) : Type := (exn + A)%type.

Definition ok {A} (a : A) : result A := inr a.
Definition throw {A} (e : exn) : result A := inl e.

Definition result_bind {A B} (m : result A) (k : A → result B) : result B :=
  match m with
  | inl e => inl e
  | inr a => k a
  end.

Notation "'let*' x ':=' m 'in' k" := (result_bind m (λ x, k))
  (at level 10, x pattern, m at level 100, k at level 200).

(** ** JSON values as Python sees them after [response.json()] / [json.load] *)

Inductive json : Type :=
  | JNull
  | JBool (b : bool)
  | JNum (z : Z)
  | JStr (s : string)
  | JArr (l : list json)
  | JObj (m : gmap string json).

(** Python truth value ([bool(x)]). *)
Definition truthy (v : json) : bool :=
  match v with
  | JNull => false
  | JBool b => b
  | JNum z => negb (Z.eqb z 0)
  | JStr s => negb (String.eqb s "")
  | JArr l => negb (bool_decide (l = []))
  | JObj m => negb (bool_decide (m = ∅))
  end.

Fixpoint is_substring (p s : string) : bool :=
  String.prefix p s ||
  match s with
  | EmptyString => false
  | String _ s' => is_substring p s'
  end.

(** ['key' == x] for a JSON value [x]: only an equal [str] is equal. *)
Definition str_eq_json (key : string) (x : json) : bool :=
  match x with
  | JStr s => String.eqb key s
  | _ => false
  end.

(** [key in container]: key membership for a dict, element membership for
    a list, substring test for a str, TypeError for anything else. *)
Definition py_in (key : string) (container : json) : result bool :=
  match container with
  | JObj m => ok (bool_decide (is_Some (m !! key)))
  | JArr l => ok (existsb (str_eq_json key) l)
  | JStr s => ok (is_substring key s)
  | JNull | JBool _ | JNum _ => throw TypeError
  end.

(** [container[key]] with a string key. *)
Definition py_getitem (container : json) (key : string) : result json :=
  match container with
  | JObj m =>
      match m !! key with
      | Some v => ok v
      | None => throw KeyError
      end
  | _ => throw TypeError
  end.

(** [v.items()]: only a dict has the method. *)
Definition py_items (v : json) : result (list (string * json)) :=
  match v with
  | JObj m => ok (map_to_list m)
  | _ => throw AttributeError
  end.

(** [sorted] on the (key, value) tuples of a dict. Tuples compare by their
    first component where these differ, and the keys of a dict are pairwise
    different, so the value is never looked at: the order is the order of
    the keys. *)
Definition item_le (p q : string * json) : Prop := String.le p.1 q.1.

Global Instance item_le_dec : RelDecision item_le.
Proof. intros p q. unfold item_le. apply _. Defined.

Definition sorted_items (items : list (string * json)) : list (string * json) :=
  merge_sort item_le items.

(** ** The data model *)

Record Point (V : Type) : Type := mkPoint { year : string; emission : V }.
Arguments mkPoint {V} _ _.
Arguments year {V} _.
Arguments emission {V} _.

Record CountrySeries (V : Type) : Type :=
  mkSeries { country_code : string; data : list (Point V) }.
Arguments mkSeries {V} _ _.
Arguments country_code {V} _.
Arguments data {V} _.

(** [[{"year": year, "emission": value} for year, value in sorted(series.items())]],
    lines 34 and 49, from the response: [response['series'].items()] can
    raise. *)
Definition series_data (response : json) : result (list (Point json)) :=
  let* series := py_getitem response "series" in
  let* items := py_items series in
  ok ((λ '(year, value), mkPoint year value) <$> sorted_items items).

(** ** The world and the IO monad *)

(** A fault the environment injects into the next I/O operation: [None] is
    "no fault", [Some n] makes the operation raise OSError (a failing write
    leaves the first [n] characters in the file). *)
Definition fault : Type := option nat.

Record world : Type := World {
  files : gmap string string;
  stdout : list string;
  faults : list fault
}.

Definition IO (A : Type) : Type := world → result A * world.

Definition io_ret {A} (a : A) : IO A := λ w, (inr a, w).
Definition io_raise {A} (e : exn) : IO A := λ w, (inl e, w).
Definition io_lift {A} (r : result A) : IO A := λ w, (r, w).

Definition io_bind {A B} (m : IO A) (k : A → IO B) : IO B := λ w,
  match m w with
  | (inl e, w') => (inl e, w')
  | (inr a, w') => k a w'
  end.

Notation "'do' x '<-' m ';' k" := (io_bind m (λ x, k))
  (at level 10, x pattern, m at level 100, k at level 200).
Notation "m ';;' k" := (io_bind m (λ _, k))
  (at level 100, k at level 200, right associativity).

(** [try: body except Exception as e: handler(e)]: every exception of the
    model is a subclass of Exception. What [body] did to the world before it
    raised stays done. *)
Definition try_except {A} (body : IO A) (handler : exn → IO A) : IO A := λ w,
  match body w with
  | (inl e, w') => handler e w'
  | (inr a, w') => (inr a, w')
  end.

Definition print (line : string) : IO unit := λ w,
  (inr tt, World (files w) (stdout w ++ [line]) (faults w)).

(** What a handler prints for [e]: the class of the exception stands for
    [str(e)], the message, which the model does not carry. *)
Definition show_exn (e : exn) : string :=
  match e with
  | ClientError => "ClientError"
  | OSError => "OSError"
  | JSONDecodeError => "JSONDecodeError"
  | TypeError => "TypeError"
  | AttributeError => "AttributeError"
  | KeyError => "KeyError"
  | ValueError => "ValueError"
  | IndexError => "IndexError"
  end.

(** ** The HTTP fetcher *)

Record params : Type := Params { place : string; stat_var : string }.

(** [session.get(url, params=params)] followed by [response.json()]: the
    decoded body, or the exception the client raised. *)
Record ClientSession : Type := Session {
  get_json : string → params → result json
}.

Definition fetch_data (session : ClientSession) (url : string) (p : params) : IO json :=
  try_except
    (io_lift (get_json session url p))
    (λ e, print ("Error fetching data: " +:+ show_exn e) ;; io_ret JNull).

(** ** The country data aggregator *)

Definition api_url : string := "https://api.datacommons.org/stat/series".
Definition the_stat_var : string := "sdg/EN_ATM_GHGT_AIP".

Definition country_params (code : string) : params :=
  Params ("country/" +:+ code) the_stat_var.

(** [asyncio.gather] over the tasks: the results in the order of the tasks. *)
Fixpoint gather {A} (tasks : list (IO A)) : IO (list A) :=
  match tasks with
  | [] => io_ret []
  | t :: ts => do r <- t; do rs <- gather ts; io_ret (r :: rs)
  end.

(** [response and 'series' in response] *)
Definition has_series (response : json) : result bool :=
  if truthy response then py_in "series" response else ok false.

(** The body of [for code, response in zip(country_codes, responses)]. *)
Fixpoint parse_loop (pairs : list (string * json))
    (country_data : list (CountrySeries json)) : IO (list (CountrySeries json)) :=
  match pairs with
  | [] => io_ret country_data
  | (code, response) :: rest =>
      do b <- io_lift (has_series response);
      if b : bool then
        do pts <- io_lift (series_data response);
        parse_loop rest (country_data ++ [mkSeries code pts])
      else
        print ("No data available for " +:+ code +:+ ".") ;;
        parse_loop rest country_data
  end.

Definition parse_country_data (session : ClientSession) (country_codes : list string)
    : IO (list (CountrySeries json)) :=
  let country_data := [] in
  let url := api_url in
  let tasks := (λ code, fetch_data session url (country_params code)) <$> country_codes in
  do responses <- gather tasks;
  parse_loop (zip country_codes responses) country_data.

(** ** The EU fetcher *)

Definition eu_params : params := Params "undata-geo/G00500360" the_stat_var.

Definition fetch_eu_data (session : ClientSession) : IO (list (CountrySeries json)) :=
  let url := api_url in
  try_except
    (do eu_data <- io_lift (get_json session url eu_params);
     do b <- io_lift (py_in "series" eu_data);
     if b : bool then
       do pts <- io_lift (series_data eu_data);
       let EU_data := [mkSeries "EU" pts] in
       print "Data fetched for European Union:" ;;
       io_ret EU_data
     else
       print "No EU data available." ;;
       io_ret [])
    (λ e, print ("Error fetching EU data: " +:+ show_exn e) ;; io_ret []).

(** ** Merging, in [main] *)

Definition country_codes_main : list string :=
  ["AUS"; "AUT"; "BEL"; "BGR"; "BLR"; "CAN"; "CHE"; "CYP"; "CZE"; "DEU";
   "DNK"; "ESP"; "EST"; "FIN"; "FRA"; "GBR"; "GRC"; "HRV"; "HUN"; "IRL";
   "ISL"; "ITA"; "JPN"; "LIE"; "LTU"; "LUX"; "LVA"; "MCO"; "MLT"; "NLD";
   "NOR"; "NZL"; "POL"; "PRT"; "ROU"; "RUS"; "SVK"; "SVN"; "SWE"; "TUR";
   "UKR"; "USA"].

(** [country_data + EU_data if EU_data else country_data], line 127: a
    list is true when it is not empty. *)
Definition combine {V} (country_data EU_data : list (CountrySeries V))
    : list (CountrySeries V) :=
  match EU_data with
  | _ :: _ => country_data ++ EU_data
  | [] => country_data
  end.

(** [main] up to [combined_data]: the two coroutines are gathered. *)
Definition fetch_combined (session : ClientSession) (country_codes : list string)
    : IO (list (CountrySeries json)) :=
  do country_data <- parse_country_data session country_codes;
  do EU_data <- fetch_eu_data session;
  io_ret (combine country_data EU_data).

(** ** The persistence layer *)

(** [json.dumps(., indent=4)] and [json.loads] are the library's: the model
    takes them as an interface, with the library's contract that a value
    made of dicts with string keys, lists, strings, integers, booleans and
    None is read back as written. [loads] is [None] where the library
    raises JSONDecodeError. *)
Class JsonCodec : Type := {
  dumps : json → string;
  loads : string → option json;
  loads_dumps : ∀ v, loads (dumps v) = Some v
}.

Inductive open_mode : Type := ModeR | ModeW.

(** Each primitive I/O operation consumes the next fault of the world. *)
Definition next_fault : IO fault := λ w,
  match faults w with
  | [] => (inr None, w)
  | f :: fs => (inr f, World (files w) (stdout w) fs)
  end.

Definition set_file (path text : string) : IO unit := λ w,
  (inr tt, World (<[path := text]> (files w)) (stdout w) (faults w)).

Definition get_file (path : string) : IO string := λ w,
  match files w !! path with
  | Some text => (inr text, w)
  | None => (inl OSError, w)
  end.

(** [open(path, 'w')] creates or truncates the file; [open(path, 'r')]
    needs the file to be there. *)
Definition py_open (path : string) (m : open_mode) : IO unit :=
  do f <- next_fault;
  match f with
  | Some _ => io_raise OSError
  | None =>
      match m with
      | ModeW => set_file path ""
      | ModeR => get_file path ;; io_ret tt
      end
  end.

Definition py_write (path text : string) : IO unit :=
  do f <- next_fault;
  do old <- get_file path;
  match f with
  | Some n => set_file path (old +:+ String.substring 0 n text) ;; io_raise OSError
  | None => set_file path (old +:+ text)
  end.

Definition py_read (path : string) : IO string :=
  do f <- next_fault;
  match f with
  | Some _ => io_raise OSError
  | None => get_file path
  end.

Definition py_close (path : string) : IO unit :=
  do f <- next_fault;
  match f with
  | Some _ => io_raise OSError
  | None => io_ret tt
  end.

(** [with open(path, mode) as f: body]: the file is closed whether [body]
    returns or raises; a failing close raises. *)
Definition with_open {A} (path : string) (m : open_mode) (body : IO A) : IO A :=
  py_open path m ;;
  λ w,
    let '(r, w1) := body w in
    match py_close path w1 with
    | (inl e, w2) => (inl e, w2)
    | (inr _, w2) => (r, w2)
    end.

Section Persistence.
Context `{JsonCodec}.

Definition json_dump (data : json) (path : string) : IO unit :=
  py_write path (dumps data).

Definition json_load (path : string) : IO json :=
  do text <- py_read path;
  match loads text with
  | Some v => io_ret v
  | None => io_raise JSONDecodeError
  end.

Definition save_data_to_json (data : json) (file_path : string) : IO unit :=
  try_except
    (with_open file_path ModeW (json_dump data file_path) ;;
     print ("Data saved to " +:+ file_path))
    (λ e, print ("Error saving data to JSON: " +:+ show_exn e)).

Definition load_data_from_json (file_path : string) : IO json :=
  try_except
    (do data <- with_open file_path ModeR (json_load file_path);
     io_ret data)
    (λ e, print ("Error loading data from JSON: " +:+ show_exn e) ;; io_ret (JArr [])).
End Persistence.

(** The Python value of a dataset, as [json.dump] receives it. *)
Definition point_to_json (p : Point json) : json :=
  JObj {[ "year" := JStr (year p); "emission" := emission p ]}.

Definition series_to_json (c : CountrySeries json) : json :=
  JObj {[ "country_code" := JStr (country_code c);
          "data" := JArr (point_to_json <$> data c) ]}.

Definition dataset_to_json (ds : list (CountrySeries json)) : json :=
  JArr (series_to_json <$> ds).

(** ** A reference codec: compact JSON text *)

(** A writer and a reader of JSON text. They stand for the json library
    where a concrete codec is needed: the writer emits the compact form
    (no white space, the members of an object in the order of the map, in a
    string only the quote and the backslash escaped), the reader reads that
    form back and rejects everything else. *)

(** The double quote and the backslash, by their codes. *)
Definition quote_char : ascii := "034"%char.
Definition backslash_char : ascii := "092"%char.

Definition chars_of (s : string) : list ascii := String.list_ascii_of_string s.

Fixpoint text_of_uint (u : Decimal.uint) : list ascii :=
  match u with
  | Decimal.Nil => []
  | Decimal.D0 u => "0"%char :: text_of_uint u
  | Decimal.D1 u => "1"%char :: text_of_uint u
  | Decimal.D2 u => "2"%char :: text_of_uint u
  | Decimal.D3 u => "3"%char :: text_of_uint u
  | Decimal.D4 u => "4"%char :: text_of_uint u
  | Decimal.D5 u => "5"%char :: text_of_uint u
  | Decimal.D6 u => "6"%char :: text_of_uint u
  | Decimal.D7 u => "7"%char :: text_of_uint u
  | Decimal.D8 u => "8"%char :: text_of_uint u
  | Decimal.D9 u => "9"%char :: text_of_uint u
  end.

Definition text_of_Z (z : Z) : list ascii :=
  match Z.to_int z with
  | Decimal.Pos u => text_of_uint u
  | Decimal.Neg u => "-"%char :: text_of_uint u
  end.

Definition escaped (c : ascii) : bool := Ascii.eqb c quote_char || Ascii.eqb c backslash_char.

Fixpoint escape_chars (cs : list ascii) : list ascii :=
  match cs with
  | [] => []
  | c :: cs' =>
      if escaped c then backslash_char :: c :: escape_chars cs' else c :: escape_chars cs'
  end.

Definition text_of_str (s : string) : list ascii :=
  quote_char :: escape_chars (chars_of s) ++ [quote_char].

(** The texts of the elements, a comma before each but the first. *)
Definition comma_separated (xs : list (list ascii)) : list ascii :=
  match xs with
  | [] => []
  | x :: xs' => x ++ concat ((λ y, ","%char :: y) <$> xs')
  end.

Definition text_of_member (kv : string * list ascii) : list ascii :=
  text_of_str kv.1 ++ ":"%char :: kv.2.

Fixpoint text_of_json (j : json) : list ascii :=
  match j with
  | JNull => chars_of "null"
  | JBool true => chars_of "true"
  | JBool false => chars_of "false"
  | JNum z => text_of_Z z
  | JStr s => text_of_str s
  | JArr l => "["%char :: comma_separated (text_of_json <$> l) ++ ["]"%char]
  | JObj m => "{"%char :: comma_separated (text_of_member <$> map_to_list (text_of_json <$> m)) ++ ["}"%char]
  end.

(** Reading: every reader returns what it read and the rest of the text. *)

Definition digit_of (c : ascii) : option (Decimal.uint → Decimal.uint) :=
  if Ascii.eqb c "0" then Some Decimal.D0
  else if Ascii.eqb c "1" then Some Decimal.D1
  else if Ascii.eqb c "2" then Some Decimal.D2
  else if Ascii.eqb c "3" then Some Decimal.D3
  else if Ascii.eqb c "4" then Some Decimal.D4
  else if Ascii.eqb c "5" then Some Decimal.D5
  else if Ascii.eqb c "6" then Some Decimal.D6
  else if Ascii.eqb c "7" then Some Decimal.D7
  else if Ascii.eqb c "8" then Some Decimal.D8
  else if Ascii.eqb c "9" then Some Decimal.D9
  else None.

Fixpoint read_uint (s : list ascii) : Decimal.uint * list ascii :=
  match s with
  | [] => (Decimal.Nil, [])
  | c :: s' =>
      match digit_of c with
      | Some d => let '(u, rest) := read_uint s' in (d u, rest)
      | None => (Decimal.Nil, s)
      end
  end.

Definition nonempty_uint (u : Decimal.uint) : bool :=
  match u with
  | Decimal.Nil => false
  | _ => true
  end.

Definition read_Z (s : list ascii) : option (Z * list ascii) :=
  match s with
  | c :: s' =>
      if Ascii.eqb c "-" then
        let '(u, rest) := read_uint s' in
        if nonempty_uint u then Some (Z.of_int (Decimal.Neg u), rest) else None
      else
        let '(u, rest) := read_uint s in
        if nonempty_uint u then Some (Z.of_int (Decimal.Pos u), rest) else None
  | [] => None
  end.

(** After the opening quote_char: the characters up to the closing quote_char. *)
Fixpoint read_chars (s : list ascii) : option (list ascii * list ascii) :=
  match s with
  | [] => None
  | c :: s' =>
      if Ascii.eqb c quote_char then Some ([], s')
      else if Ascii.eqb c backslash_char then
        match s' with
        | [] => None
        | c' :: s'' =>
            match read_chars s'' with
            | Some (cs, rest) => Some (c' :: cs, rest)
            | None => None
            end
        end
      else
        match read_chars s' with
        | Some (cs, rest) => Some (c :: cs, rest)
        | None => None
        end
  end.

Definition read_str (s : list ascii) : option (string * list ascii) :=
  match s with
  | c :: s' =>
      if Ascii.eqb c quote_char then
        match read_chars s' with
        | Some (cs, rest) => Some (String.string_of_list_ascii cs, rest)
        | None => None
        end
      else None
  | [] => None
  end.

Fixpoint strip_prefix (p s : list ascii) : option (list ascii) :=
  match p, s with
  | [], _ => Some s
  | c :: p', d :: s' => if Ascii.eqb c d then strip_prefix p' s' else None
  | _ :: _, [] => None
  end.

Section more.
Context {A : Type} (item : list ascii → option (A * list ascii)) (close : ascii).

(** The items after the first, each after its comma, up to [close]. *)
Fixpoint read_more (n : nat) (s : list ascii) : option (list A * list ascii) :=
  match n, s with
  | S n, c :: rest =>
      if Ascii.eqb c close then Some ([], rest)
      else if Ascii.eqb c "," then
        match item rest with
        | Some (x, rest) =>
            match read_more n rest with
            | Some (xs, rest) => Some (x :: xs, rest)
            | None => None
            end
        | None => None
        end
      else None
  | _, _ => None
  end.

(** After the opening bracket: nothing, or a first item and more. *)
Definition read_items (s : list ascii) : option (list A * list ascii) :=
  match s with
  | c :: rest =>
      if Ascii.eqb c close then Some ([], rest)
      else
        match item s with
        | Some (x, rest) =>
            match read_more (length rest) rest with
            | Some (xs, rest) => Some (x :: xs, rest)
            | None => None
            end
        | None => None
        end
  | [] => None
  end.
End more.

Definition read_member (value : list ascii → option (json * list ascii)) (s : list ascii)
    : option ((string * json) * list ascii) :=
  match read_str s with
  | Some (k, c :: rest) =>
      if Ascii.eqb c ":" then
        match value rest with
        | Some (v, rest) => Some ((k, v), rest)
        | None => None
        end
      else None
  | _ => None
  end.

(** The reader of values; [fuel] bounds the nesting. A repeated key of an
    object keeps its last value, as in Python. *)
Fixpoint read_json (fuel : nat) (s : list ascii) : option (json * list ascii) :=
  match fuel, s with
  | S fuel, c :: rest =>
      if Ascii.eqb c "n" then
        match strip_prefix (chars_of "null") s with
        | Some rest => Some (JNull, rest)
        | None => None
        end
      else if Ascii.eqb c "t" then
        match strip_prefix (chars_of "true") s with
        | Some rest => Some (JBool true, rest)
        | None => None
        end
      else if Ascii.eqb c "f" then
        match strip_prefix (chars_of "false") s with
        | Some rest => Some (JBool false, rest)
        | None => None
        end
      else if Ascii.eqb c quote_char then
        match read_str s with
        | Some (k, rest) => Some (JStr k, rest)
        | None => None
        end
      else if Ascii.eqb c "[" then
        match read_items (read_json fuel) "]" rest with
        | Some (xs, rest) => Some (JArr xs, rest)
        | None => None
        end
      else if Ascii.eqb c "{" then
        match read_items (read_member (read_json fuel)) "}" rest with
        | Some (kvs, rest) => Some (JObj (list_to_map (reverse kvs)), rest)
        | None => None
        end
      else
        match read_Z s with
        | Some (z, rest) => Some (JNum z, rest)
        | None => None
        end
  | _, _ => None
  end.

Definition json_dumps (v : json) : string := String.string_of_list_ascii (text_of_json v).

(** The whole text has to be one value. *)
Definition json_loads (text : string) : option json :=
  match read_json (S (String.length text)) (chars_of text) with
  | Some (v, []) => Some v
  | _ => None
  end.

(** ** The chart renderer *)

Inductive trace : Type :=
  | Scatter (x : list string) (y : list Z) (mode : string) (name : string)
  | Bar (x : list string) (y : list Z) (name : string)
  | Pie (labels : list string) (values : list Z).

Record Layout : Type := mkLayout {
  title : option string;
  xaxis_title : option string;
  yaxis_title : option string;
  template : option string
}.

Record Figure : Type := mkFigure { fig_data : list trace; fig_layout : Layout }.

(** [go.Figure(data=...)]: nothing configured. *)
Definition go_Figure (traces : list trace) : Figure :=
  mkFigure traces (mkLayout None None None None).

Definition add_trace (fig : Figure) (t : trace) : Figure :=
  mkFigure (fig_data fig ++ [t]) (fig_layout fig).

Definition update_layout (fig : Figure) (t x y tpl : string) : Figure :=
  mkFigure (fig_data fig) (mkLayout (Some t) (Some x) (Some y) (Some tpl)).

(** [sum(xs)]: from 0, left to right. *)
Definition py_sum (xs : list Z) : Z := fold_left Z.add xs 0%Z.

(** A Python dict keeps its keys in the order of their first insertion;
    assigning to a key that is there replaces the value in place. *)
Fixpoint dict_setitem {V} (k : string) (v : V) (d : list (string * V)) : list (string * V) :=
  match d with
  | [] => [(k, v)]
  | (k', v') :: d' =>
      if String.eqb k k' then (k, v) :: d' else (k', v') :: dict_setitem k v d'
  end.

Fixpoint dict_getitem {V} (d : list (string * V)) (k : string) : result V :=
  match d with
  | [] => throw KeyError
  | (k', v') :: d' => if String.eqb k k' then ok v' else dict_getitem d' k
  end.

(** [l.index(x)]: the first position of [x], ValueError when absent. *)
Fixpoint list_index (l : list string) (x : string) : result nat :=
  match l with
  | [] => throw ValueError
  | y :: l' =>
      if String.eqb y x then ok 0%nat
      else let* i := list_index l' x in ok (S i)
  end.

Definition list_getitem (l : list Z) (i : nat) : result Z :=
  match l !! i with
  | Some v => ok v
  | None => throw IndexError
  end.

(** [[item['year'] for country in combined_data for item in country['data']]] *)
Definition all_years (combined_data : list (CountrySeries Z)) : list string :=
  country ← combined_data; item ← data country; [year item].

(** [sorted(list(set(ys)))] *)
Definition sorted_set (ys : list string) : list string :=
  merge_sort String.le (elements (list_to_set ys : gset string)).

(** [{country['country_code']: [0] * len(years) for country in combined_data}] *)
Definition zero_dict (years : list string) (combined_data : list (CountrySeries Z))
    : list (string * list Z) :=
  fold_left
    (λ d country, dict_setitem (country_code country) (replicate (length years) 0%Z) d)
    combined_data [].

(** [data_dict[code][years.index(item['year'])] += item['emission']] for
    the items of one country. *)
Fixpoint stacked_items (years : list string) (code : string) (items : list (Point Z))
    (data_dict : list (string * list Z)) : result (list (string * list Z)) :=
  match items with
  | [] => ok data_dict
  | item :: rest =>
      let* row := dict_getitem data_dict code in
      let* i := list_index years (year item) in
      let* old := list_getitem row i in
      stacked_items years code rest
        (dict_setitem code (<[i := (old + emission item)%Z]> row) data_dict)
  end.

Fixpoint stacked_countries (years : list string) (combined_data : list (CountrySeries Z))
    (data_dict : list (string * list Z)) : result (list (string * list Z)) :=
  match combined_data with
  | [] => ok data_dict
  | country :: rest =>
      let* data_dict := stacked_items years (country_code country) (data country) data_dict in
      stacked_countries years rest data_dict
  end.

Definition plot_data (combined_data : list (CountrySeries Z)) (graph_type : string)
    : result Figure :=
  let fig := go_Figure [] in
  let* fig :=
    if String.eqb graph_type "line" then
      ok (fold_left
            (λ fig country,
               add_trace fig (Scatter (year <$> data country) (emission <$> data country)
                                      "lines+markers" (country_code country)))
            combined_data fig)
    else if String.eqb graph_type "bar" then
      ok (fold_left
            (λ fig country,
               add_trace fig (Bar (year <$> data country) (emission <$> data country)
                                  (country_code country)))
            combined_data fig)
    else if String.eqb graph_type "pie" then
      ok (go_Figure [Pie (country_code <$> combined_data)
                         ((λ country, py_sum (emission <$> data country)) <$> combined_data)])
    else if String.eqb graph_type "stacked" then
      let years := sorted_set (all_years combined_data) in
      let data_dict := zero_dict years combined_data in
      let* data_dict := stacked_countries years combined_data data_dict in
      let fig := go_Figure [] in
      ok (fold_left
            (λ fig '(country_code, emissions), add_trace fig (Bar years emissions country_code))
            data_dict fig)
    else ok fig in
  ok (update_layout fig "EN_ATM_GHGT_AIP Data" "Year" "Emission" "plotly_dark").

(** ** The dashboard callback *)

(** [update_graph] closes over [combined_data]; the closure is the first
    argument here. *)
Definition update_graph (combined_data : list (CountrySeries Z))
    (selected_countries : list string) (graph_type : string) : result Figure :=
  let selected_data :=
    filter (λ country, country_code country ∈ selected_countries) combined_data in
  plot_data selected_data graph_type.

(** ** The chart renderer on the values as they were decoded *)

(** [parse_country_data] stores the values of a series untouched, and
    [main] hands them to the callback as they are: an emission is whatever
    the body held. [Raw] is the renderer on such a dataset. The line and
    the bar chart pass the emissions on to plotly; the pie and the stacked
    chart add them up, to an int that starts at 0. *)
Module Raw.

Inductive trace : Type :=
  | Scatter (x : list string) (y : list json) (mode : string) (name : string)
  | Bar (x : list string) (y : list json) (name : string)
  | Pie (labels : list string) (values : list json).

Record Figure : Type := mkFigure { fig_data : list trace; fig_layout : Layout }.

Definition go_Figure (traces : list trace) : Figure :=
  mkFigure traces (mkLayout None None None None).

Definition add_trace (fig : Figure) (t : trace) : Figure :=
  mkFigure (fig_data fig ++ [t]) (fig_layout fig).

Definition update_layout (fig : Figure) (t x y tpl : string) : Figure :=
  mkFigure (fig_data fig) (mkLayout (Some t) (Some x) (Some y) (Some tpl)).

(** [a + x] for an int [a]: a bool counts as 0 or 1; None, a str, a list
    and a dict have no addition with an int. *)
Definition py_add (a : Z) (x : json) : result Z :=
  match x with
  | JNum z => ok (a + z)%Z
  | JBool b => ok (a + Z.b2z b)%Z
  | JNull | JStr _ | JArr _ | JObj _ => throw TypeError
  end.

(** [sum(xs)]: from 0, left to right. *)
Fixpoint sum_from (acc : Z) (xs : list json) : result Z :=
  match xs with
  | [] => ok acc
  | x :: xs' => let* acc := py_add acc x in sum_from acc xs'
  end.

Definition py_sum (xs : list json) : result Z := sum_from 0%Z xs.

(** [[f(x) for x in l]] where [f] can raise. *)
Fixpoint comprehension {A B} (f : A → result B) (l : list A) : result (list B) :=
  match l with
  | [] => ok []
  | x :: l' =>
      let* y := f x in
      let* ys := comprehension f l' in
      ok (y :: ys)
  end.

Definition all_years (combined_data : list (CountrySeries json)) : list string :=
  country ← combined_data; item ← data country; [year item].

Definition zero_dict (years : list string) (combined_data : list (CountrySeries json))
    : list (string * list Z) :=
  fold_left
    (λ d country, dict_setitem (country_code country) (replicate (length years) 0%Z) d)
    combined_data [].

Fixpoint stacked_items (years : list string) (code : string) (items : list (Point json))
    (data_dict : list (string * list Z)) : result (list (string * list Z)) :=
  match items with
  | [] => ok data_dict
  | item :: rest =>
      let* row := dict_getitem data_dict code in
      let* i := list_index years (year item) in
      let* old := list_getitem row i in
      let* new := py_add old (emission item) in
      stacked_items years code rest (dict_setitem code (<[i := new]> row) data_dict)
  end.

Fixpoint stacked_countries (years : list string) (combined_data : list (CountrySeries json))
    (data_dict : list (string * list Z)) : result (list (string * list Z)) :=
  match combined_data with
  | [] => ok data_dict
  | country :: rest =>
      let* data_dict := stacked_items years (country_code country) (data country) data_dict in
      stacked_countries years rest data_dict
  end.

Definition plot_data (combined_data : list (CountrySeries json)) (graph_type : string)
    : result Figure :=
  let fig := go_Figure [] in
  let* fig :=
    if String.eqb graph_type "line" then
      ok (fold_left
            (λ fig country,
               add_trace fig (Scatter (year <$> data country) (emission <$> data country)
                                      "lines+markers" (country_code country)))
            combined_data fig)
    else if String.eqb graph_type "bar" then
      ok (fold_left
            (λ fig country,
               add_trace fig (Bar (year <$> data country) (emission <$> data country)
                                  (country_code country)))
            combined_data fig)
    else if String.eqb graph_type "pie" then
      let labels := country_code <$> combined_data in
      let* values :=
        comprehension (λ country, py_sum (emission <$> data country)) combined_data in
      ok (go_Figure [Pie labels (JNum <$> values)])
    else if String.eqb graph_type "stacked" then
      let years := sorted_set (all_years combined_data) in
      let data_dict := zero_dict years combined_data in
      let* data_dict := stacked_countries years combined_data data_dict in
      let fig := go_Figure [] in
      ok (fold_left
            (λ fig '(country_code, emissions),
               add_trace fig (Bar years (JNum <$> emissions) country_code))
            data_dict fig)
    else ok fig in
  ok (update_layout fig "EN_ATM_GHGT_AIP Data" "Year" "Emission" "plotly_dark").

Definition update_graph (combined_data : list (CountrySeries json))
    (selected_countries : list string) (graph_type : string) : result Figure :=
  let selected_data :=
    filter (λ country, country_code country ∈ selected_countries) combined_data in
  plot_data selected_data graph_type.

End Raw.

(** ** Vocabulary of the statements *)

(** What [fetch_data] hands to [parse_country_data] for a country code: the
    decoded body, or [None] when the fetch raised. *)
Definition response_of (session : ClientSession) (code : string) : json :=
  match get_json session api_url (country_params code) with
  | inl _ => JNull
  | inr v => v
  end.

(** The [series] mapping of a response, when the response is an object
    whose [series] field is an object. *)
Definition series_of (response : json) : option (gmap string json) :=
  match response with
  | JObj body =>
      match body !! "series" with
      | Some (JObj m) => Some m
      | _ => None
      end
  | _ => None
  end.

(** The response [parse_country_data] drops: Python [None], or an object
    without a [series] field. *)
Definition no_series (response : json) : Prop :=
  response = JNull ∨ ∃ body, response = JObj body ∧ body !! "series" = None.

(** The fetch for [code] failed (transport error, timeout, a body that is
    not JSON), or its response is an object without a [series] field. *)
Definition fetch_drops (session : ClientSession) (code : string) : bool :=
  match get_json session api_url (country_params code) with
  | inl _ => true
  | inr (JObj body) =>
      match body !! "series" with
      | None => true
      | Some _ => false
      end
  | inr _ => false
  end.

(** The response for [code] carries a [series] mapping. *)
Definition fetch_carries (session : ClientSession) (code : string) : bool :=
  match series_of (response_of session code) with
  | Some _ => true
  | None => false
  end.

(** The fetch for [code] raised. *)
Definition fetch_fails (session : ClientSession) (code : string) : bool :=
  match get_json session api_url (country_params code) with
  | inl _ => true
  | inr _ => false
  end.

(** A response the loop drops because it is falsy or because [series] is
    not in it: None, false, zero, a string in which [series] does not
    occur, a list without the string [series] among its elements, an
    object without the key. *)
Definition dropped_response (response : json) : Prop :=
  match response with
  | JNull => True
  | JBool b => b = false
  | JNum z => z = 0%Z
  | JStr s => is_substring "series" s = false
  | JArr l => JStr "series" ∉ l
  | JObj m => m !! "series" = None
  end.

Global Instance dropped_response_dec (response : json) :
  Decision (dropped_response response).
Proof.
  destruct response as [|b|z|s|l|m]; simpl; try apply _.
  induction l as [|x l IH]; [left; apply not_elem_of_nil|].
  destruct IH as [Hl|Hl].
  - destruct x as [| | |s| |];
      try (left; intros [Hx|Hx]%elem_of_cons; [discriminate Hx|done]).
    destruct (decide (s = "series")) as [->|Hs].
    + right. intros Hx. apply Hx, list_elem_of_here.
    + left. intros [Hx|Hx]%elem_of_cons; [|done]. injection Hx as <-. done.
  - right. intros Hx. apply Hl. intros Hin. apply Hx. by apply list_elem_of_further.
Defined.

(** The code is dropped: its fetch failed, or its response is one the loop
    drops. *)
Definition code_dropped (session : ClientSession) (code : string) : Prop :=
  fetch_fails session code = true ∨ dropped_response (response_of session code).

Global Instance code_dropped_dec (session : ClientSession) (code : string) :
  Decision (code_dropped session code).
Proof. unfold code_dropped. apply _. Defined.

(** A response that lacks a [series] field: anything but an object that
    has the key. *)
Definition lacks_series (response : json) : Prop :=
  match response with
  | JObj body => body !! "series" = None
  | JNull | JBool _ | JNum _ | JStr _ | JArr _ => True
  end.

(** Strictly ascending [str] order. *)
Definition string_lt : relation string := strict String.le.

(** [pts] lists the items of [m] once each, in ascending order of the year. *)
Definition exactly_sorted (m : gmap string json) (pts : list (Point json)) : Prop :=
  StronglySorted string_lt (year <$> pts) ∧
  (λ p, (year p, emission p)) <$> pts ≡ₚ map_to_list m.

(** The value [parse_loop] computes, without the printing. *)
Fixpoint loop_value (pairs : list (string * json)) (country_data : list (CountrySeries json))
    : result (list (CountrySeries json)) :=
  match pairs with
  | [] => ok country_data
  | (code, response) :: rest =>
      let* b := has_series response in
      if b : bool then
        let* pts := series_data response in
        loop_value rest (country_data ++ [mkSeries code pts])
      else loop_value rest country_data
  end.

(** The codes paired with what their fetches returned. *)
Definition tagged_responses (session : ClientSession) (codes : list string)
    : list (string * json) :=
  (λ code, (code, response_of session code)) <$> codes.

(** The entry of a code whose response carries a series. *)
Definition entry_of (code : string) (response : json) : option (CountrySeries json) :=
  match series_of response with
  | Some _ =>
      match series_data response with
      | inr pts => Some (mkSeries code pts)
      | inl _ => None
      end
  | None => None
  end.

(** What [fetch_eu_data] returns, without the printing. *)
Definition eu_entries (session : ClientSession) : list (CountrySeries json) :=
  match get_json session api_url eu_params with
  | inl _ => []
  | inr eu_data =>
      match py_in "series" eu_data with
      | inr true =>
          match series_data eu_data with
          | inr pts => [mkSeries "EU" pts]
          | inl _ => []
          end
      | _ => []
      end
  end.

(** The sum of a list of integers. *)
Definition sumZ (l : list Z) : Z := foldr Z.add 0%Z l.

(** The layout every figure gets. *)
Definition the_layout : Layout :=
  mkLayout (Some "EN_ATM_GHGT_AIP Data") (Some "Year") (Some "Emission")
           (Some "plotly_dark").

(** The traces of one entry in the line and in the bar chart. *)
Definition scatter_of (country : CountrySeries Z) : trace :=
  Scatter (year <$> data country) (emission <$> data country)
          "lines+markers" (country_code country).

Definition bar_of (country : CountrySeries Z) : trace :=
  Bar (year <$> data country) (emission <$> data country) (country_code country).

(** The emissions of the items of year [y], summed. *)
Definition year_total (items : list (Point Z)) (y : string) : Z :=
  sumZ (emission <$> filter (λ p, year p = y) items).

(** The emissions of year [y] over all entries of code [c], summed. *)
Definition code_total (ds : list (CountrySeries Z)) (c y : string) : Z :=
  sumZ ((λ e, year_total (data e) y) <$> filter (λ e, country_code e = c) ds).

(** The elements of a list in the order of their first occurrence. *)
Fixpoint first_occurrences (l : list string) : list string :=
  match l with
  | [] => []
  | x :: l' => x :: filter (λ y, y ≠ x) (first_occurrences l')
  end.

(** The bar series of code [c] in the stacked chart of [ds]. *)
Definition stacked_bar (ds : list (CountrySeries Z)) (c : string) : trace :=
  let years := sorted_set (all_years ds) in
  Bar years ((λ y, code_total ds c y) <$> years) c.

(** The name of a trace, when it has one. *)
Definition trace_name (t : trace) : option string :=
  match t with
  | Scatter _ _ _ name => Some name
  | Bar _ _ name => Some name
  | Pie _ _ => None
  end.

(** The field [k] of an object. *)
Definition json_field (j : json) (k : string) : option json :=
  match j with
  | JObj m => m !! k
  | _ => None
  end.

(** None of the next [n] I/O operations is going to fail. *)
Definition no_fault (n : nat) (w : world) : bool :=
  forallb (λ f : fault, match f with None => true | Some _ => false end)
          (take n (faults w)).

(** What [load_data_from_json] returns. *)
Definition load_result `{JsonCodec} (file_path : string) (w : world) : json :=
  if no_fault 3 w then
    match files w !! file_path with
    | Some text =>
        match loads text with
        | Some v => v
        | None => JArr []
        end
    | None => JArr []
    end
  else JArr [].

(** The nesting depth of a value. *)
Fixpoint json_depth (j : json) : nat :=
  match j with
  | JArr l => S (max_list (json_depth <$> l))
  | JObj m => S (max_list (map_to_list (json_depth <$> m)).*2)
  | _ => 0
  end.

(** The rest of the text does not go on with a digit. *)
Definition no_digit_head (rest : list ascii) : Prop :=
  match rest with
  | [] => True
  | c :: _ => digit_of c = None
  end.

(** The first character of a number: a digit or the sign. *)
Definition num_start (c : ascii) : Prop := is_Some (digit_of c) ∨ c = "-"%char.

(** [item] reads an item back from its text [pr x], and that text does not
    begin with the closing bracket. *)
Definition reads_back {A} (item : list ascii → option (A * list ascii)) (close : ascii)
    (pr : A → list ascii) (x : A) : Prop :=
  (∀ rest, no_digit_head rest → item (pr x ++ rest) = Some (x, rest)) ∧
  ∃ c s, pr x = c :: s ∧ Ascii.eqb c close = false.

(** ** The runs of the examples *)

(** The API session of the examples: Australia answers with the series of
    the example, the EU with a two-year series, Austria with an object
    without [series], every other place fails. *)
Definition example_session : ClientSession :=
  Session (λ _ p,
    if String.eqb (place p) "country/AUS" then
      ok (JObj {[ "series" := JObj {[ "2019" := JNum 100; "2018" := JNum 90 ]} ]})
    else if String.eqb (place p) "undata-geo/G00500360" then
      ok (JObj {[ "series" := JObj {[ "1990" := JNum 7; "1991" := JNum 8 ]} ]})
    else if String.eqb (place p) "country/AUT" then
      ok (JObj {[ "error" := JStr "no data" ]})
    else throw ClientError).

(** A session whose answer for Austria is the JSON number 5. *)
Definition number_session : ClientSession :=
  Session (λ _ p,
    if String.eqb (place p) "country/AUS" then
      ok (JObj {[ "series" := JObj {[ "2019" := JNum 100; "2018" := JNum 90 ]} ]})
    else if String.eqb (place p) "country/AUT" then
      ok (JNum 5)
    else throw ClientError).

Definition empty_world : world := World ∅ [] [].

Definition example_dataset : list (CountrySeries json) :=
  [mkSeries "AUS" [mkPoint "2018" (JNum 90); mkPoint "2019" (JNum 100)];
   mkSeries "EU" [mkPoint "1990" (JNum 7)]].

(** ** The rest of [main] *)

(** [os.path.join(a, b)] on a POSIX system, for a relative [b]. *)
Definition ends_with_slash (a : string) : bool :=
  match String.rev a with
  | String c _ => Ascii.eqb c "/"
  | EmptyString => false
  end.

Definition path_join (a b : string) : string :=
  if String.eqb a "" || ends_with_slash a then a +:+ b else a +:+ "/" +:+ b.

Definition file_name : string := "EN_ATM_GHGT_AIP_sorted.json".

(** [main] up to line 130, with the working directory [os.getcwd()] as an
    argument: fetch and merge, save, load back. It returns [combined_data]
    and [data_example]. *)
Definition main_pipeline `{JsonCodec} (session : ClientSession) (cwd : string)
    : IO (list (CountrySeries json) * json) :=
  let country_codes := country_codes_main in
  let file_path := path_join cwd file_name in
  do combined_data <- fetch_combined session country_codes;
  save_data_to_json (dataset_to_json combined_data) file_path ;;
  do data_example <- load_data_from_json file_path;
  io_ret (combined_data, data_example).

(** A row of the data frame of line 133. *)
Record Row (V : Type) : Type :=
  mkRow { row_country_code : string; row_year : string; row_emission : V }.
Arguments mkRow {V} _ _ _.
Arguments row_country_code {V} _.
Arguments row_year {V} _.
Arguments row_emission {V} _.

(** [[{'country_code': d['country_code'], 'year': item['year'],
      'emission': item['emission']} for d in combined_data for item in d['data']]] *)
Definition dataframe_rows {V} (combined_data : list (CountrySeries V)) : list (Row V) :=
  d ← combined_data; item ← data d;
  [mkRow (country_code d) (year item) (emission item)].

(** ** Vocabulary of the further properties *)

(** The line printed for a code without data, line 37. *)
Definition no_data_line (code : string) : string :=
  "No data available for " +:+ code +:+ ".".

(** The numbers a trace shows. *)
Definition trace_values (t : trace) : list Z :=
  match t with
  | Scatter _ y _ _ => y
  | Bar _ y _ => y
  | Pie _ values => values
  end.

(** All numbers of a figure, summed. *)
Definition figure_total (fig : Figure) : Z :=
  sumZ (fig_data fig ≫= trace_values).

(** All emissions of a dataset, summed. *)
Definition total_emission (ds : list (CountrySeries Z)) : Z :=
  sumZ (ds ≫= λ e, emission <$> data e).

(** A session whose answer for Austria has a [series] field that is not a
    mapping, and whose answer for the EU is the JSON value null. *)
Definition broken_session : ClientSession :=
  Session (λ _ p,
    if String.eqb (place p) "country/AUS" then
      ok (JObj {[ "series" := JObj {[ "2019" := JNum 100; "2018" := JNum 90 ]} ]})
    else if String.eqb (place p) "country/AUT" then
      ok (JObj {[ "series" := JNull ]})
    else if String.eqb (place p) "undata-geo/G00500360" then
      ok JNull
    else throw ClientError).

(** An emission Python can add to an int: a number or a bool. *)
Definition addable (v : json) : bool :=
  match v with
  | JNum _ | JBool _ => true
  | JNull | JStr _ | JArr _ | JObj _ => false
  end.

Definition all_addable (ds : list (CountrySeries json)) : bool :=
  forallb (λ country, forallb (λ item, addable (emission item)) (data country)) ds.

(** An emission that is an integer. *)
Definition is_integer (v : json) : bool :=
  match v with
  | JNum _ => true
  | JNull | JBool _ | JStr _ | JArr _ | JObj _ => false
  end.

Definition all_integers (ds : list (CountrySeries json)) : bool :=
  forallb (λ country, forallb (λ item, is_integer (emission item)) (data country)) ds.

(** A dataset of integers as the decoder gives it, and a figure of
    integers as [Raw.plot_data] gives it. *)
Definition untyped_point (p : Point Z) : Point json := mkPoint (year p) (JNum (emission p)).

Definition untyped_series (c : CountrySeries Z) : CountrySeries json :=
  mkSeries (country_code c) (untyped_point <$> data c).

Definition untyped (ds : list (CountrySeries Z)) : list (CountrySeries json) :=
  untyped_series <$> ds.

Definition untyped_trace (t : trace) : Raw.trace :=
  match t with
  | Scatter x y mode name => Raw.Scatter x (JNum <$> y) mode name
  | Bar x y name => Raw.Bar x (JNum <$> y) name
  | Pie labels values => Raw.Pie labels (JNum <$> values)
  end.

Definition untyped_figure (fig : Figure) : Raw.Figure :=
  Raw.mkFigure (untyped_trace <$> fig_data fig) (fig_layout fig).

(** The integers of a dataset all of whose emissions are integers. *)
Definition integer_of (v : json) : Z :=
  match v with
  | JNum z => z
  | JNull | JBool _ | JStr _ | JArr _ | JObj _ => 0%Z
  end.

Definition typed (ds : list (CountrySeries json)) : list (CountrySeries Z) :=
  (λ c, mkSeries (country_code c)
          ((λ p, mkPoint (year p) (integer_of (emission p))) <$> data c)) <$> ds.

(** A session whose bodies are JSON values but no objects. *)
Definition scalar_session : ClientSession :=
  Session (λ _ p,
    if String.eqb (place p) "country/AUS" then ok (JBool false)
    else if String.eqb (place p) "country/AUT" then ok (JNum 0)
    else if String.eqb (place p) "country/BEL" then ok (JStr "no data")
    else if String.eqb (place p) "country/BGR" then ok (JArr [JStr "error"])
    else if String.eqb (place p) "country/BLR" then ok (JStr "no series found")
    else throw ClientError).

(** What [main] merges under [example_session]. *)
Definition example_dataset_main : list (CountrySeries json) :=
  [mkSeries "AUS" [mkPoint "2018" (JNum 90); mkPoint "2019" (JNum 100)];
   mkSeries "EU" [mkPoint "1990" (JNum 7); mkPoint "1991" (JNum 8)]].

(** * Proofs *)

(** ** Sorting the items of a series *)

Global Instance item_le_trans : Transitive item_le.
Proof. intros p q r. unfold item_le. apply transitivity. Qed.

Global Instance item_le_total : Total item_le.
Proof. intros p q. unfold item_le. apply total, _. Qed.

Lemma StronglySorted_strict {A} (R : relation A) `{!AntiSymm (=) R} (l : list A) :
  StronglySorted R l → NoDup l → StronglySorted (strict R) l.
Proof.
  induction 1 as [|x l Hl IH Hx]; intros Hnd; [constructor|].
  apply NoDup_cons in Hnd as [Hnotin Hnd].
  constructor; [by apply IH|].
  apply Forall_forall. intros y Hy.
  apply strict_spec_alt. split.
  - by eapply Forall_forall in Hx.
  - intros ->. done.
Qed.

Lemma StronglySorted_strict_NoDup {A} (R : relation A) (l : list A) :
  StronglySorted (strict R) l → NoDup l.
Proof.
  induction 1 as [|x l Hl IH Hx]; constructor; [|done].
  intros Hin. eapply Forall_forall in Hx; [|done].
  by apply (irreflexivity (strict R)) in Hx.
Qed.

Lemma sorted_items_keys (m : gmap string json) :
  StronglySorted string_lt (sorted_items (map_to_list m)).*1.
Proof.
  apply StronglySorted_strict; [apply _|..].
  - eapply StronglySorted_fmap; [|apply (StronglySorted_merge_sort item_le)].
    by intros p q.
  - unfold sorted_items. rewrite merge_sort_Permutation.
    apply NoDup_fst_map_to_list.
Qed.

Lemma points_of_items_year (items : list (string * json)) :
  year <$> ((λ '(y, v), mkPoint y v) <$> items) = items.*1.
Proof. rewrite <-list_fmap_compose. apply list_fmap_ext. by intros ? [??]. Qed.

Lemma points_of_items_pairs (items : list (string * json)) :
  (λ p, (year p, emission p)) <$> ((λ '(y, v), mkPoint y v) <$> items) = items.
Proof.
  rewrite <-list_fmap_compose. rewrite <-(list_fmap_id items) at 2.
  apply list_fmap_ext. by intros ? [??].
Qed.

Lemma series_data_spec (response : json) (m : gmap string json) :
  series_of response = Some m →
  ∃ pts, series_data response = ok pts ∧ exactly_sorted m pts.
Proof.
  unfold series_of. intros Hm.
  destruct response as [| | | | |body]; try done.
  destruct (body !! "series") as [[| | | | |m']|] eqn:Hs; simplify_eq.
  eexists. split.
  - unfold series_data. simpl. rewrite Hs. simpl. reflexivity.
  - split.
    + rewrite points_of_items_year. apply sorted_items_keys.
    + rewrite points_of_items_pairs. apply merge_sort_Permutation.
Qed.

(** ** The fetchers *)

Lemma fetch_data_returns (session : ClientSession) (code : string) (w : world) :
  ∃ w', fetch_data session api_url (country_params code) w
        = (inr (response_of session code), w').
Proof.
  unfold fetch_data, try_except, io_lift, response_of.
  destruct (get_json session api_url (country_params code)); eauto.
Qed.

Lemma gather_fetch_data (session : ClientSession) (codes : list string) (w : world) :
  ∃ w', gather ((λ code, fetch_data session api_url (country_params code)) <$> codes) w
        = (inr (response_of session <$> codes), w').
Proof.
  revert w. induction codes as [|c codes IH]; intros w; csimpl.
  - by eexists.
  - unfold io_bind at 1.
    destruct (fetch_data_returns session c w) as [w1 ->].
    unfold io_bind at 1. destruct (IH w1) as [w2 ->]. by eexists.
Qed.

Lemma parse_loop_value (pairs : list (string * json)) (acc : list (CountrySeries json))
    (w : world) :
  (parse_loop pairs acc w).1 = loop_value pairs acc.
Proof.
  revert acc w. induction pairs as [|[code response] rest IH]; intros acc w; [done|].
  simpl. unfold io_bind at 1, io_lift at 1.
  destruct (has_series response) as [e|[]]; simpl; [done| |].
  - unfold io_bind at 1, io_lift at 1.
    destruct (series_data response) as [e|pts]; simpl; [done|]. apply IH.
  - unfold io_bind at 1, print at 1. apply IH.
Qed.

Lemma zip_fmap_r {A B} (f : A → B) (l : list A) :
  zip l (f <$> l) = (λ x, (x, f x)) <$> l.
Proof. induction l; csimpl; by f_equal. Qed.

Lemma parse_country_data_value (session : ClientSession) (codes : list string) (w : world) :
  (parse_country_data session codes w).1 = loop_value (tagged_responses session codes) [].
Proof.
  unfold parse_country_data, io_bind.
  destruct (gather_fetch_data session codes w) as [w1 ->].
  rewrite parse_loop_value, zip_fmap_r. done.
Qed.

(** The accumulator only ever grows at its end. *)
Lemma loop_value_acc (pairs : list (string * json)) (acc : list (CountrySeries json)) :
  loop_value pairs acc
  = match loop_value pairs [] with
    | inl e => inl e
    | inr ds => inr (acc ++ ds)
    end.
Proof.
  revert acc. induction pairs as [|[code response] rest IH]; intros acc; simpl.
  - by rewrite app_nil_r.
  - destruct (has_series response) as [e|[]]; simpl; [done| |by apply IH].
    destruct (series_data response) as [e|pts]; simpl; [done|].
    rewrite (IH (acc ++ _)), (IH [_]).
    destruct (loop_value rest []); [done|]. by rewrite <-app_assoc.
Qed.

Lemma loop_value_app (l1 l2 : list (string * json)) (acc : list (CountrySeries json)) :
  loop_value (l1 ++ l2) acc
  = match loop_value l1 acc with
    | inl e => inl e
    | inr ds => loop_value l2 ds
    end.
Proof.
  revert acc. induction l1 as [|[code response] rest IH]; intros acc; simpl; [done|].
  destruct (has_series response) as [e|[]]; simpl; [done| |by apply IH].
  destruct (series_data response) as [e|pts]; simpl; [done|]. apply IH.
Qed.

Lemma has_series_no_series (response : json) :
  no_series response → has_series response = ok false.
Proof.
  intros [->|(body & -> & Hb)]; [done|].
  unfold has_series. simpl. case_match; [|done].
  unfold ok. do 2 f_equal. apply bool_decide_eq_false. rewrite Hb. by intros [??].
Qed.

Lemma has_series_series_of (response : json) (m : gmap string json) :
  series_of response = Some m → has_series response = ok true.
Proof.
  unfold series_of. destruct response as [| | | | |body]; try done.
  destruct (body !! "series") as [v|] eqn:Hs; [|done]. intros _.
  unfold has_series. simpl.
  assert (body ≠ ∅) as Hne by (intros ->; by rewrite lookup_empty in Hs).
  rewrite bool_decide_eq_false_2 by done. simpl.
  unfold ok. do 2 f_equal. apply bool_decide_eq_true. by rewrite Hs.
Qed.

Lemma eqb_false_of_ne (s t : string) : s ≠ t → String.eqb s t = false.
Proof. intros Hne. by apply String.eqb_neq. Qed.

Lemma existsb_str_eq_json (key : string) (l : list json) :
  JStr key ∉ l → existsb (str_eq_json key) l = false.
Proof.
  induction l as [|x l IH]; [done|].
  intros [Hx Hl]%not_elem_of_cons. simpl. rewrite IH by done.
  destruct x as [| | |s| |]; try done. simpl.
  rewrite orb_false_r. apply eqb_false_of_ne. by intros ->.
Qed.

Lemma has_series_dropped (response : json) :
  dropped_response response → has_series response = ok false.
Proof.
  unfold has_series. destruct response as [|b|z|s|l|m]; simpl.
  - done.
  - by intros ->.
  - by intros ->.
  - intros ->. by destruct (negb _).
  - intros Hl. rewrite existsb_str_eq_json by done. by destruct (negb _).
  - intros Hm.
    rewrite (bool_decide_eq_false_2 (is_Some (m !! "series")))
      by (rewrite Hm; by intros [??]).
    by destruct (negb _).
Qed.

Lemma dropped_response_not_carried (response : json) :
  dropped_response response → series_of response = None.
Proof.
  destruct response as [| | | | |body]; try done. simpl. by intros ->.
Qed.

Lemma code_dropped_response (session : ClientSession) (code : string) :
  code_dropped session code → dropped_response (response_of session code).
Proof.
  intros [Hfail|Hdrop]; [|done]. unfold fetch_fails in Hfail. unfold response_of.
  by destruct (get_json session api_url (country_params code)).
Qed.

(** A dropped response leaves the loop as if it had not been there. *)
Lemma loop_value_skip (l1 l2 : list (string * json)) (code : string) (response : json)
    (acc : list (CountrySeries json)) :
  dropped_response response →
  loop_value (l1 ++ (code, response) :: l2) acc = loop_value (l1 ++ l2) acc.
Proof.
  intros Hdrop. rewrite !loop_value_app.
  destruct (loop_value l1 acc); [done|].
  simpl. by rewrite has_series_dropped.
Qed.

Lemma loop_value_dropped_or_carried (pairs : list (string * json)) :
  Forall (λ cr, dropped_response cr.2 ∨ is_Some (series_of cr.2)) pairs →
  loop_value pairs [] = ok (omap (λ cr, entry_of cr.1 cr.2) pairs).
Proof.
  induction 1 as [|[code response] rest Hcr _ IH]; [done|].
  simpl in Hcr. cbn [loop_value omap list_omap].
  destruct Hcr as [Hdrop|[m Hm]].
  - rewrite has_series_dropped by done. simpl.
    assert (entry_of code response = None) as ->; [|done].
    unfold entry_of. by rewrite dropped_response_not_carried.
  - rewrite (has_series_series_of _ m) by done. simpl.
    destruct (series_data_spec _ _ Hm) as (pts & Hpts & _).
    unfold entry_of. rewrite Hm, Hpts. simpl.
    rewrite loop_value_acc, IH. done.
Qed.

Lemma loop_value_benign (pairs : list (string * json)) :
  Forall (λ cr, no_series cr.2 ∨ is_Some (series_of cr.2)) pairs →
  loop_value pairs [] = ok (omap (λ cr, entry_of cr.1 cr.2) pairs).
Proof.
  induction 1 as [|[code response] rest Hcr _ IH]; [done|].
  simpl in Hcr. cbn [loop_value omap list_omap].
  destruct Hcr as [Hno|[m Hm]].
  - rewrite has_series_no_series by done. simpl.
    assert (entry_of code response = None) as ->; [|done].
    unfold entry_of. destruct Hno as [->|(body & -> & Hb)]; [done|].
    simpl. by rewrite Hb.
  - rewrite (has_series_series_of _ m) by done. simpl.
    destruct (series_data_spec _ _ Hm) as (pts & Hpts & _).
    unfold entry_of. rewrite Hm, Hpts. simpl.
    rewrite loop_value_acc, IH. done.
Qed.

Lemma fetch_drops_no_series (session : ClientSession) (code : string) :
  fetch_drops session code = true → no_series (response_of session code).
Proof.
  unfold fetch_drops, response_of, no_series.
  destruct (get_json session api_url (country_params code)) as [e|[| | | | |body]];
    try done; [by left|].
  destruct (body !! "series") eqn:Hb; [done|]. right. eauto.
Qed.

Lemma fetch_drops_not_carries (session : ClientSession) (code : string) :
  fetch_drops session code = true → fetch_carries session code = false.
Proof.
  intros Hno%fetch_drops_no_series. unfold fetch_carries.
  destruct Hno as [->|(body & -> & Hb)]; [done|].
  simpl. by rewrite Hb.
Qed.

Lemma fetch_eu_data_carries (session : ClientSession) (eu_data : json)
    (m : gmap string json) (w : world) :
  get_json session api_url eu_params = ok eu_data →
  series_of eu_data = Some m →
  ∃ pts, (fetch_eu_data session w).1 = inr [mkSeries "EU" pts] ∧ exactly_sorted m pts.
Proof.
  intros Hget Hm.
  destruct (series_data_spec _ _ Hm) as (pts & Hpts & Hsorted).
  exists pts. split; [|done].
  unfold fetch_eu_data, try_except, io_bind, io_lift. rewrite Hget.
  unfold series_of in Hm. destruct eu_data as [| | | | |body]; try done.
  destruct (body !! "series") as [v|] eqn:Hs; [|done].
  simpl. rewrite bool_decide_eq_true_2 by (by rewrite Hs).
  by rewrite Hpts.
Qed.

Lemma loop_value_codes (pairs : list (string * json)) (ds : list (CountrySeries json)) :
  loop_value pairs [] = ok ds → country_code <$> ds `sublist_of` pairs.*1.
Proof.
  revert ds. induction pairs as [|[code response] rest IH]; intros ds; simpl.
  - by intros [= <-].
  - destruct (has_series response) as [e|[]]; simpl; [done|..].
    + destruct (series_data response) as [e|pts]; simpl; [done|].
      rewrite loop_value_acc. destruct (loop_value rest []) as [e|ds'] eqn:Hrest; [done|].
      intros [= <-]. csimpl. apply sublist_skip. by apply IH.
    + intros Hds. apply sublist_cons. by apply IH.
Qed.

Lemma tagged_responses_fst (session : ClientSession) (codes : list string) :
  (tagged_responses session codes).*1 = codes.
Proof.
  unfold tagged_responses. rewrite <-list_fmap_compose.
  rewrite <-(list_fmap_id codes) at 2. by apply list_fmap_ext.
Qed.

Lemma tagged_responses_app (session : ClientSession) (l1 l2 : list string) :
  tagged_responses session (l1 ++ l2)
  = tagged_responses session l1 ++ tagged_responses session l2.
Proof. apply fmap_app. Qed.

Lemma entries_codes (session : ClientSession) (codes : list string) :
  country_code <$> omap (λ cr, entry_of cr.1 cr.2) (tagged_responses session codes)
  = filter (λ c, fetch_carries session c = true) codes.
Proof.
  induction codes as [|c codes IH]; [done|].
  unfold tagged_responses. rewrite fmap_cons. cbn [omap list_omap]. simpl.
  rewrite filter_cons. unfold entry_of at 1.
  destruct (series_of (response_of session c)) as [m|] eqn:Hm.
  - destruct (series_data_spec _ _ Hm) as (pts & -> & _).
    rewrite decide_True by (unfold fetch_carries; by rewrite Hm).
    csimpl. f_equal. apply IH.
  - rewrite decide_False by (unfold fetch_carries; by rewrite Hm). apply IH.
Qed.

Lemma loop_value_all_carry (session : ClientSession) (codes : list string) :
  Forall (λ c, fetch_carries session c = true) codes →
  ∃ ds, loop_value (tagged_responses session codes) [] = ok ds ∧
    Forall2 (λ c e, country_code e = c ∧
               ∃ m, series_of (response_of session c) = Some m ∧
                    exactly_sorted m (data e)) codes ds.
Proof.
  induction 1 as [|c codes Hc _ (ds & Hds & IH)]; [by exists []|].
  unfold fetch_carries in Hc.
  destruct (series_of (response_of session c)) as [m|] eqn:Hm; [|done].
  destruct (series_data_spec _ _ Hm) as (pts & Hpts & Hsorted).
  exists (mkSeries c pts :: ds). split.
  - unfold tagged_responses. rewrite fmap_cons. cbn [loop_value].
    rewrite (has_series_series_of _ m), Hpts by done. simpl.
    rewrite loop_value_acc. fold (tagged_responses session codes). by rewrite Hds.
  - constructor; [|done]. simpl. eauto.
Qed.

(** C1: for every API response that contains a [series] mapping, the data
    sequence of the CountrySeries produced is sorted ascending by the raw
    year string and holds exactly one (year, emission) point per key of
    the mapping, none lost and none twice; this holds for the entries
    [parse_country_data] produces and for the entry [fetch_eu_data]
    produces. The series with keys 2019 (100) and 2018 (90) yields the points
    2018 (90), 2019 (100). *)
Theorem C1_series_sorted_one_point_per_key (session : ClientSession) (w : world) :
  (∀ codes,
     Forall (λ c, fetch_carries session c = true) codes →
     ∃ ds, (parse_country_data session codes w).1 = inr ds ∧
       Forall2 (λ c e, country_code e = c ∧
                  ∃ m, series_of (response_of session c) = Some m ∧
                       exactly_sorted m (data e)) codes ds) ∧
  (∀ eu_data m,
     get_json session api_url eu_params = ok eu_data →
     series_of eu_data = Some m →
     ∃ pts, (fetch_eu_data session w).1 = inr [mkSeries "EU" pts] ∧
            exactly_sorted m pts) ∧
  series_data (JObj {[ "series" := JObj {[ "2019" := JNum 100; "2018" := JNum 90 ]} ]})
  = ok [mkPoint "2018" (JNum 90); mkPoint "2019" (JNum 100)].
Proof.
  split; [|split].
  - intros codes Hcodes. rewrite parse_country_data_value.
    by apply loop_value_all_carry.
  - intros eu_data m. apply fetch_eu_data_carries.
  - vm_compute. reflexivity.
Qed.

Lemma C1_witness :
  (∃ ds, (parse_country_data example_session ["AUS"] empty_world).1 = inr ds ∧
     Forall2 (λ c e, country_code e = c ∧
                ∃ m, series_of (response_of example_session c) = Some m ∧
                     exactly_sorted m (data e)) ["AUS"] ds) ∧
  (∃ pts, (fetch_eu_data example_session empty_world).1 = inr [mkSeries "EU" pts] ∧
          exactly_sorted {[ "1990" := JNum 7; "1991" := JNum 8 ]} pts).
Proof.
  split.
  - apply (proj1 (C1_series_sorted_one_point_per_key example_session empty_world)).
    repeat constructor.
  - eapply (proj1 (proj2 (C1_series_sorted_one_point_per_key example_session empty_world)));
      reflexivity.
Defined.

(** What [exactly_sorted] gives pointwise: a point is in the sequence
    exactly when the mapping has it, and the sequence is as long as the
    mapping is large. *)
Lemma exactly_sorted_lookup (m : gmap string json) (pts : list (Point json)) :
  exactly_sorted m pts →
  NoDup (year <$> pts) ∧ length pts = size m ∧
  ∀ y v, mkPoint y v ∈ pts ↔ m !! y = Some v.
Proof.
  intros [Hsorted Hperm]. split; [|split].
  - by eapply StronglySorted_strict_NoDup.
  - rewrite <-length_map_to_list, <-Hperm. by rewrite length_fmap.
  - intros y v. rewrite <-elem_of_map_to_list, <-Hperm.
    rewrite list_elem_of_fmap. split.
    + intros Hin. by exists (mkPoint y v).
    + intros ([y' v'] & [= -> ->] & Hin). done.
Qed.

Lemma filter_dropped_carries_length (session : ClientSession) (codes : list string) :
  Forall (λ c, code_dropped session c ∨ fetch_carries session c = true) codes →
  length (filter (λ c, fetch_carries session c = true) codes)
  + length (filter (code_dropped session) codes) = length codes.
Proof.
  induction 1 as [|c codes Hc _ IH]; [done|].
  rewrite !filter_cons.
  destruct (decide (code_dropped session c)) as [Hd|Hd].
  - assert (fetch_carries session c = false) as Hnc.
    { unfold fetch_carries.
      by rewrite dropped_response_not_carried by by apply code_dropped_response. }
    rewrite decide_False by (by rewrite Hnc). simpl. lia.
  - destruct Hc as [?|Hc]; [done|].
    rewrite decide_True by done. simpl. lia.
Qed.




(** ** Merging *)

Lemma fetch_eu_data_value (session : ClientSession) (w : world) :
  ∃ w', fetch_eu_data session w = (inr (eu_entries session), w').
Proof.
  unfold fetch_eu_data, eu_entries, try_except, io_bind, io_lift.
  destruct (get_json session api_url eu_params) as [e|eu_data]; simpl; [by eauto|].
  destruct (py_in "series" eu_data) as [e|[]]; simpl; [by eauto|..|by eauto].
  destruct (series_data eu_data) as [e|pts]; simpl; by eauto.
Qed.

Lemma eu_entries_shape (session : ClientSession) :
  eu_entries session = [] ∨ ∃ pts, eu_entries session = [mkSeries "EU" pts].
Proof.
  unfold eu_entries.
  destruct (get_json session api_url eu_params) as [e|eu_data]; [by left|].
  destruct (py_in "series" eu_data) as [e|[]]; [by left|..|by left].
  destruct (series_data eu_data) as [e|pts]; [by left|]. right. by exists pts.
Qed.

Lemma combine_app {V} (country_data EU_data : list (CountrySeries V)) :
  combine country_data EU_data = country_data ++ EU_data.
Proof. destruct EU_data; simpl; [by rewrite app_nil_r|done]. Qed.

Lemma fetch_combined_value (session : ClientSession) (codes : list string) (w : world) :
  (fetch_combined session codes w).1
  = match (parse_country_data session codes w).1 with
    | inl e => inl e
    | inr country_data => inr (country_data ++ eu_entries session)
    end.
Proof.
  unfold fetch_combined. unfold io_bind at 1.
  destruct (parse_country_data session codes w) as [[e|country_data] w1]; [done|].
  unfold io_bind. destruct (fetch_eu_data_value session w1) as [w2 ->].
  simpl. by rewrite combine_app.
Qed.

(** C4: the merged dataset is the country results followed by the EU
    result: with a non-empty EU result that result comes last, with an empty
    one the dataset is the country results alone; nothing is reordered or
    removed. In [main] the country results are the entries of
    [parse_country_data], whose codes follow the request order, and the EU
    result is what [fetch_eu_data] returns, empty or the one entry tagged
    EU. *)
Theorem C4_merge_country_results_then_eu (session : ClientSession)
    (country_codes : list string) (w : world) :
  (∀ V (country_data EU_data : list (CountrySeries V)),
     combine country_data EU_data = country_data ++ EU_data ∧
     (EU_data = [] → combine country_data EU_data = country_data)) ∧
  (∀ country_data,
     (parse_country_data session country_codes w).1 = inr country_data →
     ∃ EU_data,
       (fetch_eu_data session w).1 = inr EU_data ∧
       (EU_data = [] ∨ ∃ pts, EU_data = [mkSeries "EU" pts]) ∧
       (fetch_combined session country_codes w).1 = inr (country_data ++ EU_data) ∧
       country_code <$> country_data `sublist_of` country_codes).
Proof.
  split.
  - intros V country_data EU_data. split; [apply combine_app|by intros ->].
  - intros country_data Hparse. exists (eu_entries session). split; [|split; [|split]].
    + by destruct (fetch_eu_data_value session w) as [w' ->].
    + apply eu_entries_shape.
    + by rewrite fetch_combined_value, Hparse.
    + rewrite parse_country_data_value in Hparse.
      apply loop_value_codes in Hparse. by rewrite tagged_responses_fst in Hparse.
Qed.

Lemma C4_witness :
  ∃ EU_data,
    (fetch_eu_data example_session empty_world).1 = inr EU_data ∧
    (EU_data = [] ∨ ∃ pts, EU_data = [mkSeries "EU" pts]) ∧
    (fetch_combined example_session country_codes_main empty_world).1
    = inr ([mkSeries "AUS" [mkPoint "2018" (JNum 90); mkPoint "2019" (JNum 100)]]
           ++ EU_data) ∧
    country_code <$> [mkSeries "AUS" [mkPoint "2018" (JNum 90); mkPoint "2019" (JNum 100)]]
      `sublist_of` country_codes_main.
Proof.
  apply (proj2 (C4_merge_country_results_then_eu example_session country_codes_main
                  empty_world)).
  vm_compute. reflexivity.
Defined.

(** ** The chart renderer: line, bar, pie and the fall-through *)

Lemma fold_left_add (l : list Z) (a : Z) : fold_left Z.add l a = (a + sumZ l)%Z.
Proof.
  revert a. induction l as [|x l IH]; intros a; simpl; [lia|]. rewrite IH. lia.
Qed.

Lemma py_sum_sumZ (l : list Z) : py_sum l = sumZ l.
Proof. unfold py_sum. by rewrite fold_left_add. Qed.

Lemma sumZ_app (l1 l2 : list Z) : sumZ (l1 ++ l2) = (sumZ l1 + sumZ l2)%Z.
Proof. induction l1 as [|x l1 IH]; simpl; [done|]. rewrite IH. lia. Qed.

Lemma fold_add_trace {A} (f : A → trace) (l : list A) (fig : Figure) :
  fold_left (λ fig x, add_trace fig (f x)) l fig
  = mkFigure (fig_data fig ++ (f <$> l)) (fig_layout fig).
Proof.
  revert fig. induction l as [|x l IH]; intros fig; simpl.
  - rewrite app_nil_r. by destruct fig.
  - rewrite IH. simpl. by rewrite <-app_assoc.
Qed.

Lemma plot_data_line (ds : list (CountrySeries Z)) :
  plot_data ds "line" = ok (mkFigure (scatter_of <$> ds) the_layout).
Proof. unfold plot_data. simpl. by rewrite (fold_add_trace scatter_of). Qed.

Lemma plot_data_bar (ds : list (CountrySeries Z)) :
  plot_data ds "bar" = ok (mkFigure (bar_of <$> ds) the_layout).
Proof. unfold plot_data. simpl. by rewrite (fold_add_trace bar_of). Qed.

(** C6: rendering with chart type pie returns a figure with one Pie trace
    that has exactly one slice per entry of the dataset, in dataset order:
    the label of slice [i] is the country code of entry [i] and its value
    is the sum of the emission values of that entry over all of its
    years, however many there are. *)
Theorem C6_pie_slice_is_sum_of_emissions (ds : list (CountrySeries Z)) :
  ∃ labels values,
    plot_data ds "pie" = ok (mkFigure [Pie labels values] the_layout) ∧
    length labels = length ds ∧
    length values = length ds ∧
    ∀ i country, ds !! i = Some country →
      labels !! i = Some (country_code country) ∧
      values !! i = Some (sumZ (emission <$> data country)).
Proof.
  exists (country_code <$> ds),
         ((λ country, py_sum (emission <$> data country)) <$> ds).
  split; [done|]. rewrite !length_fmap. split; [done|]. split; [done|].
  intros i country Hi. rewrite !list_lookup_fmap, Hi. simpl.
  by rewrite py_sum_sumZ.
Qed.

(** C8: the dashboard callback renders the chart from the entries of the
    dataset whose country code is among the selected codes: an entry is in
    the subset exactly when it is in the dataset and its code is selected,
    the subset keeps the order (and the repetitions) of the dataset, and the
    order in which the codes were selected plays no part. *)
Theorem C8_update_graph_filters_in_dataset_order (combined_data : list (CountrySeries Z))
    (selected_countries : list string) (graph_type : string) :
  ∃ selected_data,
    update_graph combined_data selected_countries graph_type
    = plot_data selected_data graph_type ∧
    (∀ country, country ∈ selected_data ↔
       country ∈ combined_data ∧ country_code country ∈ selected_countries) ∧
    selected_data `sublist_of` combined_data ∧
    (∀ pre country post, combined_data = pre ++ country :: post →
       country_code country ∈ selected_countries →
       ∃ pre' post', selected_data = pre' ++ country :: post' ∧
         pre' `sublist_of` pre ∧ post' `sublist_of` post) ∧
    (∀ selection', selection' ≡ₚ selected_countries →
       update_graph combined_data selection' graph_type
       = update_graph combined_data selected_countries graph_type).
Proof.
  exists (filter (λ country, country_code country ∈ selected_countries) combined_data).
  split; [done|]. split; [|split; [|split]].
  - intros country. rewrite list_elem_of_filter. tauto.
  - apply sublist_filter.
  - intros pre country post -> Hsel.
    rewrite filter_app, filter_cons_True by done.
    eexists _, _. split; [done|]. split; apply sublist_filter.
  - intros selection' Hperm. unfold update_graph. f_equal.
    apply list_filter_iff. intros country. by rewrite Hperm.
Qed.

Lemma C8_witness :
  ∃ selected_data,
    update_graph [mkSeries "AUS" [mkPoint "2018" 90%Z]; mkSeries "USA" [mkPoint "2018" 7%Z]]
                 ["USA"; "AUS"] "line"
    = plot_data selected_data "line" ∧
    ∃ pre' post', selected_data = pre' ++ mkSeries "USA" [mkPoint "2018" 7%Z] :: post' ∧
      pre' `sublist_of` [mkSeries "AUS" [mkPoint "2018" 90%Z]] ∧ post' `sublist_of` [].
Proof.
  destruct (C8_update_graph_filters_in_dataset_order
              [mkSeries "AUS" [mkPoint "2018" 90%Z]; mkSeries "USA" [mkPoint "2018" 7%Z]]
              ["USA"; "AUS"] "line") as (selected_data & Hgraph & _ & _ & Hpos & _).
  exists selected_data. split; [exact Hgraph|].
  apply Hpos; [reflexivity|]. simpl. apply list_elem_of_here.
Defined.

(** C9 as stated: for a chart type outside line, bar, pie and stacked the
    renderer would return the figure [go.Figure()] as it was created,
    nothing configured. It does not: the fixed layout is applied to the
    figure of every chart type, the fall-through included. *)
Lemma C9_counterexample :
  ¬ (∀ (ds : list (CountrySeries Z)) (graph_type : string),
       graph_type ∉ ["line"; "bar"; "pie"; "stacked"] →
       plot_data ds graph_type = ok (go_Figure [])).
Proof.
  intros Hclaim. specialize (Hclaim [] "scatter").
  assert ("scatter" ∉ ["line"; "bar"; "pie"; "stacked"]) as Hnot.
  { rewrite !not_elem_of_cons. repeat split; try done. apply not_elem_of_nil. }
  specialize (Hclaim Hnot). vm_compute in Hclaim. discriminate Hclaim.
Qed.

(** C9, amended: for every chart type outside line, bar, pie and stacked
    the renderer raises nothing and returns a figure without any data
    trace, to which only the fixed layout of every chart (title, axis
    titles, dark template) has been applied; the dataset plays no part. *)
Theorem C9_unsupported_type_no_traces (ds : list (CountrySeries Z)) (graph_type : string) :
  graph_type ∉ ["line"; "bar"; "pie"; "stacked"] →
  ∃ fig, plot_data ds graph_type = ok fig ∧
    fig_data fig = [] ∧
    fig = update_layout (go_Figure []) "EN_ATM_GHGT_AIP Data" "Year" "Emission" "plotly_dark".
Proof.
  rewrite !not_elem_of_cons. intros (Hline & Hbar & Hpie & Hstacked & _).
  exists (update_layout (go_Figure []) "EN_ATM_GHGT_AIP Data" "Year" "Emission" "plotly_dark").
  split; [|split; reflexivity].
  unfold plot_data. rewrite !eqb_false_of_ne by done. reflexivity.
Qed.

Lemma C9_witness :
  ∃ fig, plot_data [mkSeries "AUS" [mkPoint "2018" 90%Z]] "scatter" = ok fig ∧
    fig_data fig = [] ∧
    fig = update_layout (go_Figure []) "EN_ATM_GHGT_AIP Data" "Year" "Emission" "plotly_dark".
Proof.
  apply C9_unsupported_type_no_traces.
  rewrite !not_elem_of_cons. repeat split; try done. apply not_elem_of_nil.
Defined.

(** ** The chart renderer: stacked *)

Section dict.
Context {V : Type}.
Implicit Types (d : list (string * V)) (k : string) (v : V).

Lemma dict_getitem_setitem_eq d k v : dict_getitem (dict_setitem k v d) k = ok v.
Proof.
  induction d as [|[k' v'] d IH]; simpl.
  - by rewrite String.eqb_refl.
  - destruct (String.eqb_spec k k') as [->|Hne]; simpl.
    + by rewrite String.eqb_refl.
    + by rewrite (proj2 (String.eqb_neq _ _) Hne).
Qed.

Lemma dict_getitem_setitem_ne d k k' v :
  k ≠ k' → dict_getitem (dict_setitem k v d) k' = dict_getitem d k'.
Proof.
  intros Hne. induction d as [|[k0 v0] d IH]; simpl.
  - by rewrite (proj2 (String.eqb_neq k' k)).
  - destruct (String.eqb_spec k k0) as [->|Hne0]; simpl.
    + by rewrite !(proj2 (String.eqb_neq k' k0)).
    + by rewrite IH.
Qed.

Lemma dict_setitem_keys_in d k v : k ∈ d.*1 → (dict_setitem k v d).*1 = d.*1.
Proof.
  induction d as [|[k' v'] d IH]; csimpl; [by intros ?%elem_of_nil|].
  intros Hin. destruct (String.eqb_spec k k') as [->|Hne]; csimpl; [done|].
  f_equal. apply IH. apply elem_of_cons in Hin as [?|?]; done.
Qed.

Lemma dict_setitem_same d k v : dict_getitem d k = ok v → dict_setitem k v d = d.
Proof.
  induction d as [|[k' v'] d IH]; simpl; [done|].
  destruct (String.eqb_spec k k') as [->|Hne].
  - by intros [= ->].
  - intros Hget. f_equal. by apply IH.
Qed.

Lemma dict_setitem_setitem d k v1 v2 :
  dict_setitem k v2 (dict_setitem k v1 d) = dict_setitem k v2 d.
Proof.
  induction d as [|[k' v'] d IH]; simpl.
  - by rewrite String.eqb_refl.
  - destruct (String.eqb_spec k k') as [->|Hne]; simpl.
    + by rewrite String.eqb_refl.
    + rewrite (proj2 (String.eqb_neq k k')) by done. by rewrite IH.
Qed.

(** A dict is what its keys, in order, and its lookups say. *)
Lemma dict_tabulate d (g : string → V) :
  NoDup d.*1 →
  (∀ k, k ∈ d.*1 → dict_getitem d k = ok (g k)) →
  d = (λ k, (k, g k)) <$> d.*1.
Proof.
  induction d as [|[k v] d IH]; csimpl; [done|].
  intros [Hnotin Hnd]%NoDup_cons Hget. f_equal.
  - specialize (Hget k (list_elem_of_here _ _)). simpl in Hget.
    rewrite String.eqb_refl in Hget. by injection Hget as ->.
  - apply IH; [done|]. intros k' Hk'.
    specialize (Hget k' (list_elem_of_further _ _ _ Hk')). simpl in Hget.
    rewrite (proj2 (String.eqb_neq k' k)) in Hget; [done|]. by intros ->.
Qed.

Lemma dict_getitem_tabulate (ks : list string) (g : string → V) k :
  k ∈ ks → dict_getitem ((λ k, (k, g k)) <$> ks) k = ok (g k).
Proof.
  induction ks as [|k' ks IH]; [by intros ?%elem_of_nil|].
  intros Hin. csimpl. destruct (String.eqb_spec k k') as [->|Hne]; [done|].
  apply IH. by apply elem_of_cons in Hin as [?|?].
Qed.

Lemma dict_setitem_tabulate (ks : list string) k v :
  dict_setitem k v ((λ k, (k, v)) <$> ks)
  = (λ k, (k, v)) <$> (if decide (k ∈ ks) then ks else ks ++ [k]).
Proof.
  induction ks as [|k' ks IH]; csimpl; [done|].
  destruct (String.eqb_spec k k') as [->|Hne].
  - by rewrite decide_True by apply list_elem_of_here.
  - rewrite IH. destruct (decide (k ∈ ks)) as [Hin|Hnotin].
    + by rewrite decide_True by by apply list_elem_of_further.
    + rewrite decide_False; [done|]. by intros [?|?]%elem_of_cons.
Qed.
End dict.

Lemma first_occurrences_elem_of (l : list string) (x : string) :
  x ∈ first_occurrences l ↔ x ∈ l.
Proof.
  induction l as [|y l IH]; simpl; [done|].
  rewrite !elem_of_cons, list_elem_of_filter, IH.
  destruct (decide (x = y)); naive_solver.
Qed.

Lemma first_occurrences_NoDup (l : list string) : NoDup (first_occurrences l).
Proof.
  induction l as [|y l IH]; simpl; [constructor|].
  apply NoDup_cons. split.
  - rewrite list_elem_of_filter. naive_solver.
  - by apply NoDup_filter.
Qed.

(** The keys of a dict built by inserting [l] from [ks]. *)
Lemma fold_setitem_tabulate {V A} (key : A → string) (v : V) (l : list A) (ks : list string) :
  fold_left (λ d x, dict_setitem (key x) v d) l ((λ k, (k, v)) <$> ks)
  = (λ k, (k, v)) <$> (ks ++ filter (λ k, k ∉ ks) (first_occurrences (key <$> l))).
Proof.
  revert ks. induction l as [|x l IH]; intros ks; csimpl.
  - by rewrite app_nil_r.
  - rewrite dict_setitem_tabulate, IH. f_equal.
    destruct (decide (key x ∈ ks)) as [Hin|Hnotin].
    + rewrite filter_cons_False by naive_solver. f_equal.
      rewrite list_filter_filter. apply list_filter_iff. intros k. naive_solver.
    + rewrite filter_cons_True by done. rewrite <-app_assoc. simpl. do 2 f_equal.
      rewrite list_filter_filter. apply list_filter_iff. intros k.
      rewrite elem_of_app, list_elem_of_singleton. naive_solver.
Qed.

Lemma filter_all {A} (P : A → Prop) `{!∀ x, Decision (P x)} (l : list A) :
  (∀ x, P x) → filter P l = l.
Proof.
  intros HP. induction l as [|x l IH]; [done|].
  rewrite filter_cons_True by done. by f_equal.
Qed.

Lemma zero_dict_tabulate (years : list string) (ds : list (CountrySeries Z)) :
  zero_dict years ds
  = (λ c, (c, replicate (length years) 0%Z)) <$> first_occurrences (country_code <$> ds).
Proof.
  unfold zero_dict.
  etrans; [apply (fold_setitem_tabulate country_code (replicate (length years) 0%Z) ds [])|].
  simpl. f_equal. apply filter_all. intros k. apply not_elem_of_nil.
Qed.

Lemma list_index_lookup (l : list string) (i : nat) (x : string) :
  NoDup l → l !! i = Some x → list_index l x = ok i.
Proof.
  revert i. induction l as [|y l IH]; intros i Hnd Hi; [done|].
  apply NoDup_cons in Hnd as [Hnotin Hnd]. destruct i as [|i]; simpl in *.
  - injection Hi as ->. by rewrite String.eqb_refl.
  - rewrite (proj2 (String.eqb_neq y x)).
    + by rewrite (IH i).
    + intros ->. apply Hnotin. by eapply list_elem_of_lookup_2.
Qed.

Lemma list_insert_tabulate (l : list string) (f : string → Z) (i : nat) (x : string) (v : Z) :
  NoDup l → l !! i = Some x →
  <[i := v]> (f <$> l) = (λ y, if decide (y = x) then v else f y) <$> l.
Proof.
  intros Hnd Hi. apply list_eq. intros j.
  destruct (decide (i = j)) as [<-|Hne].
  - rewrite list_lookup_insert_eq by (rewrite length_fmap; by eapply lookup_lt_Some).
    rewrite list_lookup_fmap, Hi. simpl. by rewrite decide_True.
  - rewrite list_lookup_insert_ne by done. rewrite !list_lookup_fmap.
    destruct (l !! j) as [y|] eqn:Hj; [|done]. simpl.
    rewrite decide_False; [done|]. intros ->.
    apply Hne. by eapply NoDup_lookup.
Qed.

Lemma year_total_cons (item : Point Z) (items : list (Point Z)) (y : string) :
  year_total (item :: items) y
  = ((if decide (year item = y) then emission item else 0) + year_total items y)%Z.
Proof.
  unfold year_total. rewrite filter_cons. by destruct (decide (year item = y)).
Qed.

Lemma code_total_cons (e : CountrySeries Z) (ds : list (CountrySeries Z)) (c y : string) :
  code_total (e :: ds) c y
  = ((if decide (country_code e = c) then year_total (data e) y else 0)
     + code_total ds c y)%Z.
Proof.
  unfold code_total. rewrite filter_cons. by destruct (decide (country_code e = c)).
Qed.

Lemma stacked_items_spec (years : list string) (code : string) (items : list (Point Z))
    (d : list (string * list Z)) (f : string → Z) :
  NoDup years →
  (∀ p, p ∈ items → year p ∈ years) →
  dict_getitem d code = ok (f <$> years) →
  stacked_items years code items d
  = ok (dict_setitem code ((λ y, (f y + year_total items y)%Z) <$> years) d).
Proof.
  intros Hnd. revert d f. induction items as [|item rest IH]; intros d f Hyears Hget.
  - simpl. f_equal. symmetry. apply dict_setitem_same. rewrite Hget. f_equal.
    apply list_fmap_ext. intros _ y _. unfold year_total. simpl. lia.
  - cbn [stacked_items]. rewrite Hget. simpl.
    destruct (list_elem_of_lookup_1 years (year item)) as [i Hi].
    { apply Hyears, list_elem_of_here. }
    rewrite (list_index_lookup _ _ _ Hnd Hi). simpl.
    unfold list_getitem. rewrite list_lookup_fmap, Hi. simpl.
    rewrite (list_insert_tabulate _ _ _ _ _ Hnd Hi).
    rewrite (IH _ (λ y, if decide (y = year item) then (f (year item) + emission item)%Z
                        else f y)).
    + rewrite dict_setitem_setitem. do 2 f_equal.
      apply list_fmap_ext. intros _ y _. rewrite year_total_cons.
      destruct (decide (y = year item)) as [->|Hne].
      * rewrite decide_True by done. lia.
      * rewrite decide_False by done. lia.
    + intros p Hp. by apply Hyears, list_elem_of_further.
    + apply dict_getitem_setitem_eq.
Qed.

Lemma stacked_countries_spec (years : list string) (ds : list (CountrySeries Z))
    (d : list (string * list Z)) (F : string → string → Z) :
  NoDup years →
  (∀ e p, e ∈ ds → p ∈ data e → year p ∈ years) →
  (∀ e, e ∈ ds → country_code e ∈ d.*1) →
  (∀ c, c ∈ d.*1 → dict_getitem d c = ok (F c <$> years)) →
  ∃ d', stacked_countries years ds d = ok d' ∧ d'.*1 = d.*1 ∧
    ∀ c, c ∈ d.*1 →
      dict_getitem d' c = ok ((λ y, (F c y + code_total ds c y)%Z) <$> years).
Proof.
  intros Hnd. revert d F.
  induction ds as [|e rest IH]; intros d F Hyears Hcodes Hget.
  - exists d. split; [done|]. split; [done|]. intros c Hc. rewrite (Hget c Hc).
    f_equal. apply list_fmap_ext. intros _ y _. unfold code_total. simpl. lia.
  - cbn [stacked_countries].
    assert (country_code e ∈ d.*1) as He by apply Hcodes, list_elem_of_here.
    rewrite (stacked_items_spec years _ _ d (F (country_code e))); [|done|..].
    2:{ intros p Hp. eapply Hyears; [apply list_elem_of_here|done]. }
    2:{ by apply Hget. }
    simpl.
    set (d1 := dict_setitem (country_code e) _ d).
    assert (d1.*1 = d.*1) as Hkeys by (by apply dict_setitem_keys_in).
    destruct (IH d1 (λ c y, if decide (c = country_code e)
                            then (F c y + year_total (data e) y)%Z else F c y))
      as (d' & Hd' & Hkeys' & Hget').
    + intros e' p He' Hp. eapply Hyears; [by apply list_elem_of_further|done].
    + intros e' He'. rewrite Hkeys. by apply Hcodes, list_elem_of_further.
    + intros c Hc. rewrite Hkeys in Hc. unfold d1.
      destruct (decide (c = country_code e)) as [->|Hne].
      * apply dict_getitem_setitem_eq.
      * rewrite dict_getitem_setitem_ne by done. by rewrite (Hget c Hc).
    + exists d'. split; [done|]. split; [congruence|].
      intros c Hc. rewrite Hget' by (by rewrite Hkeys). f_equal.
      apply list_fmap_ext. intros _ y _. rewrite code_total_cons.
      destruct (decide (c = country_code e)) as [->|Hne].
      * rewrite decide_True by done. lia.
      * rewrite decide_False by done. lia.
Qed.

(** [sorted(list(set(ys)))]: the elements of [ys], once each, ascending. *)
Lemma sorted_set_spec (ys : list string) :
  StronglySorted string_lt (sorted_set ys) ∧
  NoDup (sorted_set ys) ∧
  ∀ y, y ∈ sorted_set ys ↔ y ∈ ys.
Proof.
  assert (NoDup (sorted_set ys)) as Hnd.
  { unfold sorted_set. rewrite merge_sort_Permutation. apply NoDup_elements. }
  split; [|split; [done|]].
  - apply StronglySorted_strict; [apply _| |done].
    apply (StronglySorted_merge_sort String.le).
  - intros y. unfold sorted_set.
    by rewrite merge_sort_Permutation, elem_of_elements, elem_of_list_to_set.
Qed.

Lemma all_years_elem_of (ds : list (CountrySeries Z)) (y : string) :
  y ∈ all_years ds ↔ ∃ e p, e ∈ ds ∧ p ∈ data e ∧ year p = y.
Proof.
  unfold all_years. rewrite list_elem_of_bind. split.
  - intros (e & (p & Hy & Hp)%list_elem_of_bind & He).
    apply list_elem_of_singleton in Hy. by exists e, p.
  - intros (e & p & He & Hp & <-). exists e. split; [|done].
    apply list_elem_of_bind. exists p. split; [|done]. apply list_elem_of_here.
Qed.

Lemma replicate_tabulate {A B} (l : list A) (x : B) :
  replicate (length l) x = (λ _, x) <$> l.
Proof. induction l; csimpl; by f_equal. Qed.

Lemma fold_add_bar (years : list string) (d : list (string * list Z)) (fig : Figure) :
  fold_left (λ fig '(country_code, emissions), add_trace fig (Bar years emissions country_code))
            d fig
  = mkFigure (fig_data fig ++ ((λ ce, Bar years ce.2 ce.1) <$> d)) (fig_layout fig).
Proof.
  revert fig. induction d as [|[c em] d IH]; intros fig; simpl.
  - rewrite app_nil_r. by destruct fig.
  - rewrite IH. simpl. by rewrite <-app_assoc.
Qed.

Lemma plot_data_stacked (ds : list (CountrySeries Z)) :
  plot_data ds "stacked"
  = ok (mkFigure (stacked_bar ds <$> first_occurrences (country_code <$> ds)) the_layout).
Proof.
  unfold plot_data. simpl.
  set (years := sorted_set (all_years ds)).
  destruct (sorted_set_spec (all_years ds)) as (_ & Hnd & Hin). fold years in Hnd, Hin.
  set (keys := first_occurrences (country_code <$> ds)).
  assert ((zero_dict years ds).*1 = keys) as Hkeys0.
  { rewrite zero_dict_tabulate. rewrite <-list_fmap_compose. fold keys.
    etrans; [|apply list_fmap_id]. by apply list_fmap_ext. }
  destruct (stacked_countries_spec years ds (zero_dict years ds) (λ _ _, 0%Z))
    as (d' & -> & Hkeys & Hget); [done|..].
  - intros e p He Hp. apply Hin, all_years_elem_of. by exists e, p.
  - intros e He. rewrite Hkeys0. apply first_occurrences_elem_of.
    by apply list_elem_of_fmap_2.
  - intros c Hc. rewrite zero_dict_tabulate. rewrite zero_dict_tabulate in Hc.
    rewrite replicate_tabulate.
    assert (c ∈ keys) as Hck.
    { rewrite <-list_fmap_compose in Hc. apply list_elem_of_fmap in Hc as (c' & -> & ?).
      done. }
    by apply (dict_getitem_tabulate _ (λ _, (λ _, 0%Z) <$> years)).
  - simpl. rewrite fold_add_bar. simpl. unfold the_layout, update_layout. simpl.
    do 2 f_equal. rewrite Hkeys0 in Hkeys, Hget.
    rewrite (dict_tabulate d' (λ c, (λ y, code_total ds c y) <$> years)).
    + rewrite Hkeys, <-list_fmap_compose. apply list_fmap_ext. done.
    + rewrite Hkeys. apply first_occurrences_NoDup.
    + intros c Hc. rewrite Hkeys in Hc. by rewrite (Hget c Hc).
Qed.

Lemma year_total_zero (items : list (Point Z)) (y : string) :
  (∀ p, p ∈ items → year p ≠ y) → year_total items y = 0%Z.
Proof.
  induction items as [|item rest IH]; intros Hne; [done|].
  rewrite year_total_cons, decide_False by apply Hne, list_elem_of_here.
  rewrite IH; [done|]. intros p Hp. by apply Hne, list_elem_of_further.
Qed.

Lemma code_total_zero (ds : list (CountrySeries Z)) (c y : string) :
  (∀ e p, e ∈ ds → country_code e = c → p ∈ data e → year p ≠ y) →
  code_total ds c y = 0%Z.
Proof.
  induction ds as [|e rest IH]; intros Hne; [done|].
  rewrite code_total_cons, IH.
  - destruct (decide (country_code e = c)) as [Hc|]; [|done].
    rewrite year_total_zero; [done|]. intros p Hp.
    by apply (Hne e p (list_elem_of_here _ _) Hc).
  - intros e' p He'. by apply Hne, list_elem_of_further.
Qed.

Lemma code_total_app (l1 l2 : list (CountrySeries Z)) (c y : string) :
  code_total (l1 ++ l2) c y = (code_total l1 c y + code_total l2 c y)%Z.
Proof.
  unfold code_total. by rewrite filter_app, fmap_app, sumZ_app.
Qed.

Lemma code_total_other (ds : list (CountrySeries Z)) (c y : string) :
  Forall (λ e, country_code e ≠ c) ds → code_total ds c y = 0%Z.
Proof.
  induction 1 as [|e rest He _ IH]; [done|].
  by rewrite code_total_cons, decide_False, IH.
Qed.

Lemma filter_eq_notin (l : list string) (x : string) :
  x ∉ l → filter (λ y, y = x) l = [].
Proof.
  induction l as [|z l IH]; [done|].
  intros [Hne Hnotin]%not_elem_of_cons.
  rewrite filter_cons_False by done. by apply IH.
Qed.

Lemma filter_eq_NoDup (l : list string) (x : string) :
  NoDup l → x ∈ l → filter (λ y, y = x) l = [x].
Proof.
  induction 1 as [|y l Hnotin Hnd IH]; [by intros ?%elem_of_nil|].
  intros [->|Hin]%elem_of_cons.
  - rewrite filter_cons_True by done. f_equal. by apply filter_eq_notin.
  - rewrite filter_cons_False by (intros ->; done). by apply IH.
Qed.

Lemma first_occurrences_shorter (pre mid post : list string) (c : string) :
  length (first_occurrences (pre ++ c :: mid ++ c :: post))
  < length (pre ++ c :: mid ++ c :: post).
Proof.
  set (l := pre ++ c :: mid ++ c :: post).
  destruct (decide (length l ≤ length (first_occurrences l))%nat) as [Hle|]; [|lia].
  exfalso.
  assert (first_occurrences l ⊆+ l) as Hsub.
  { apply NoDup_submseteq; [apply first_occurrences_NoDup|].
    intros x. by rewrite first_occurrences_elem_of. }
  apply submseteq_length_Permutation in Hsub; [|done].
  assert (NoDup l) as Hnd by (rewrite <-Hsub; apply first_occurrences_NoDup).
  unfold l in Hnd. apply NoDup_app in Hnd as (_ & _ & Hnd).
  apply NoDup_cons in Hnd as [Hnotin _]. apply Hnotin.
  apply elem_of_app. right. apply list_elem_of_here.
Qed.

Lemma sorted_set_twice (y : string) : sorted_set [y; y] = [y].
Proof.
  unfold sorted_set.
  assert ((list_to_set [y; y] : gset string) = {[y]}) as -> by set_solver.
  by rewrite elements_singleton.
Qed.

(** C7: the stacked chart has as its x axis the years that occur anywhere
    in the subset, once each, ascending in the order of [str]; it has one
    bar series per country code, in the order in which the codes first
    occur, each with that axis and with, at every year of the axis, the sum
    of the emissions of all items of that code and year: zero where the
    country has no item of the year, the sum of the items where it has
    several. For A with the years 2000 and 2001 and B with the year 2000
    the axis is 2000, 2001 and the value of B at 2001 is zero. *)
Theorem C7_stacked_year_axis_and_vectors (ds : list (CountrySeries Z)) :
  let years := sorted_set (all_years ds) in
  StronglySorted string_lt years ∧
  (∀ y, y ∈ years ↔ ∃ e p, e ∈ ds ∧ p ∈ data e ∧ year p = y) ∧
  (∃ fig, plot_data ds "stacked" = ok fig ∧
     fig_data fig
     = (λ c, Bar years ((λ y, code_total ds c y) <$> years) c)
       <$> first_occurrences (country_code <$> ds)) ∧
  (∀ c y, (∀ e p, e ∈ ds → country_code e = c → p ∈ data e → year p ≠ y) →
     code_total ds c y = 0%Z) ∧
  (∀ c y a b,
     plot_data [mkSeries c [mkPoint y a; mkPoint y b]] "stacked"
     = ok (mkFigure [Bar [y] [(a + b)%Z] c] the_layout)) ∧
  (∀ a0 a1 b0,
     plot_data [mkSeries "A" [mkPoint "2000" a0; mkPoint "2001" a1];
                mkSeries "B" [mkPoint "2000" b0]] "stacked"
     = ok (mkFigure [Bar ["2000"; "2001"] [a0; a1] "A";
                     Bar ["2000"; "2001"] [b0; 0%Z] "B"] the_layout)).
Proof.
  intros years. destruct (sorted_set_spec (all_years ds)) as (Hsorted & _ & Hin).
  split; [done|]. split; [|split; [|split; [|split]]].
  - intros y. unfold years. by rewrite Hin, all_years_elem_of.
  - eexists. split; [apply plot_data_stacked|done].
  - apply code_total_zero.
  - intros c y a b. rewrite plot_data_stacked. unfold stacked_bar.
    change (all_years [mkSeries c [mkPoint y a; mkPoint y b]]) with [y; y].
    rewrite sorted_set_twice. simpl.
    rewrite code_total_cons, decide_True by done. cbn [data].
    rewrite !year_total_cons, !decide_True by done.
    unfold code_total, year_total. simpl. do 5 f_equal. lia.
  - intros a0 a1 b0. rewrite plot_data_stacked.
    unfold stacked_bar.
    assert (sorted_set (all_years [mkSeries "A" [mkPoint "2000" a0; mkPoint "2001" a1];
                                   mkSeries "B" [mkPoint "2000" b0]])
            = ["2000"; "2001"]) as -> by (vm_compute; reflexivity).
    simpl. unfold code_total, year_total. simpl. do 5 f_equal; f_equal; lia.
Qed.

Lemma C7_witness :
  code_total [mkSeries "A" [mkPoint "2000" 1%Z; mkPoint "2001" 2%Z];
              mkSeries "B" [mkPoint "2000" 5%Z]] "B" "2001" = 0%Z.
Proof.
  apply (C7_stacked_year_axis_and_vectors
           [mkSeries "A" [mkPoint "2000" 1%Z; mkPoint "2001" 2%Z];
            mkSeries "B" [mkPoint "2000" 5%Z]]).
  intros e p He Hc Hp.
  apply elem_of_cons in He as [->|He]; [done|].
  apply list_elem_of_singleton in He as ->. simpl in Hp.
  apply list_elem_of_singleton in Hp as ->. done.
Defined.

Lemma filter_fmap_name (f : string → trace) (c : string) (l : list string) :
  (∀ k, trace_name (f k) = Some k) →
  filter (λ t, trace_name t = Some c) (f <$> l) = f <$> filter (λ k, k = c) l.
Proof.
  intros Hname. induction l as [|k l IH]; [done|]. csimpl.
  rewrite !filter_cons, IH, Hname.
  destruct (decide (k = c)) as [->|Hne].
  - by rewrite decide_True.
  - rewrite decide_False; [done|]. by intros [= ?].
Qed.

(** C10: when the dataset has two entries with the same country code (and
    no third one), the stacked chart has a single bar series of that name,
    whose value at every year of the axis is the sum of what the two
    entries have at that year, and so has fewer series than the dataset has
    entries; the line chart and the bar chart have one trace per entry, in
    dataset order, the two entries of the same code included. *)
Theorem C10_duplicate_code_collapsed_by_stacked_only
    (pre mid post : list (CountrySeries Z)) (e1 e2 : CountrySeries Z) :
  let ds := pre ++ e1 :: mid ++ e2 :: post in
  let years := sorted_set (all_years ds) in
  country_code e2 = country_code e1 →
  Forall (λ e, country_code e ≠ country_code e1) (pre ++ mid ++ post) →
  (∃ fig, plot_data ds "stacked" = ok fig ∧
     filter (λ t, trace_name t = Some (country_code e1)) (fig_data fig)
     = [Bar years ((λ y, (year_total (data e1) y + year_total (data e2) y)%Z) <$> years)
            (country_code e1)] ∧
     length (fig_data fig) < length ds) ∧
  (∃ fig, plot_data ds "line" = ok fig ∧
     fig_data fig
     = (scatter_of <$> pre) ++ scatter_of e1 :: (scatter_of <$> mid)
       ++ scatter_of e2 :: (scatter_of <$> post) ∧
     length (fig_data fig) = length ds) ∧
  (∃ fig, plot_data ds "bar" = ok fig ∧
     fig_data fig
     = (bar_of <$> pre) ++ bar_of e1 :: (bar_of <$> mid)
       ++ bar_of e2 :: (bar_of <$> post) ∧
     length (fig_data fig) = length ds).
Proof.
  intros ds years Hsame Hothers.
  apply Forall_app in Hothers as [Hpre Hothers].
  apply Forall_app in Hothers as [Hmid Hpost].
  split; [|split].
  - eexists. split; [apply plot_data_stacked|]. cbn [fig_data]. split.
    + rewrite (filter_fmap_name (stacked_bar ds)) by done.
      rewrite filter_eq_NoDup.
      * simpl. unfold stacked_bar. fold years. do 2 f_equal.
        apply list_fmap_ext. intros _ y _. unfold ds.
        rewrite code_total_app, code_total_cons, code_total_app, code_total_cons.
        rewrite !code_total_other by done.
        rewrite !decide_True by done. lia.
      * apply first_occurrences_NoDup.
      * apply first_occurrences_elem_of, list_elem_of_fmap_2.
        unfold ds. apply elem_of_app. right. apply list_elem_of_here.
    + rewrite length_fmap. rewrite <-(length_fmap country_code ds).
      unfold ds. rewrite fmap_app, fmap_cons, fmap_app, fmap_cons, Hsame.
      apply first_occurrences_shorter.
  - eexists. split; [apply plot_data_line|]. cbn [fig_data]. split.
    + unfold ds. by rewrite fmap_app, fmap_cons, fmap_app, fmap_cons.
    + by rewrite length_fmap.
  - eexists. split; [apply plot_data_bar|]. cbn [fig_data]. split.
    + unfold ds. by rewrite fmap_app, fmap_cons, fmap_app, fmap_cons.
    + by rewrite length_fmap.
Qed.

Lemma C10_witness :
  let A1 := mkSeries "A" [mkPoint "2000" 1%Z; mkPoint "2001" 2%Z] in
  let B := mkSeries "B" [mkPoint "2000" 5%Z] in
  let A2 := mkSeries "A" [mkPoint "2001" 10%Z] in
  ∃ fig, plot_data ([] ++ A1 :: [B] ++ A2 :: []) "stacked" = ok fig ∧
    filter (λ t, trace_name t = Some "A") (fig_data fig)
    = [Bar (sorted_set (all_years ([] ++ A1 :: [B] ++ A2 :: [])))
           ((λ y, (year_total (data A1) y + year_total (data A2) y)%Z)
              <$> sorted_set (all_years ([] ++ A1 :: [B] ++ A2 :: [])))
           "A"] ∧
    length (fig_data fig) < length ([] ++ A1 :: [B] ++ A2 :: []).
Proof.
  intros A1 B A2.
  apply (C10_duplicate_code_collapsed_by_stacked_only [] [B] [] A1 A2).
  - reflexivity.
  - apply Forall_cons_2; [done|apply Forall_nil_2].
Defined.

(** ** The reference codec reads back what it wrote *)

Section json_text.
Local Open Scope nat_scope.

Lemma json_depth_arr (l : list json) (x : json) : x ∈ l → json_depth x < json_depth (JArr l).
Proof.
  intros Hx. simpl. apply Nat.lt_succ_r, max_list_elem_of_le.
  by apply list_elem_of_fmap_2.
Qed.

Lemma json_depth_obj (m : gmap string json) (k : string) (v : json) :
  (k, v) ∈ map_to_list m → json_depth v < json_depth (JObj m).
Proof.
  intros Hkv. simpl. apply Nat.lt_succ_r, max_list_elem_of_le.
  rewrite map_to_list_fmap. apply list_elem_of_fmap. exists (k, json_depth v). split; [done|].
  apply list_elem_of_fmap. by exists (k, v).
Qed.

Lemma strip_prefix_app (p rest : list ascii) : strip_prefix p (p ++ rest) = Some rest.
Proof.
  induction p as [|c p IH]; simpl; [by destruct rest|].
  by rewrite Ascii.eqb_refl.
Qed.

Lemma read_uint_text (u : Decimal.uint) (rest : list ascii) :
  no_digit_head rest → read_uint (text_of_uint u ++ rest) = (u, rest).
Proof.
  intros Hrest. induction u; simpl; rewrite ?IHu; try done.
  destruct rest as [|c rest]; simpl; [done|]. simpl in Hrest. by rewrite Hrest.
Qed.

Lemma text_of_uint_head (u : Decimal.uint) :
  u ≠ Decimal.Nil →
  ∃ c s, text_of_uint u = c :: s ∧ is_Some (digit_of c) ∧ Ascii.eqb c "-" = false.
Proof. destruct u; try done; intros _; simpl; by eexists _, _. Qed.

Lemma text_of_Z_head (z : Z) : ∃ c s, text_of_Z z = c :: s ∧ num_start c.
Proof.
  unfold text_of_Z, num_start. destruct z as [|p|p]; simpl.
  - eexists _, _. split; [done|]. by left.
  - destruct (text_of_uint_head (Pos.to_uint p)) as (c & s & -> & Hc & _);
      [apply Unsigned.to_uint_nonnil|]. eexists _, _. split; [done|]. by left.
  - eexists _, _. split; [done|]. by right.
Qed.

Lemma read_Z_text (z : Z) (rest : list ascii) :
  no_digit_head rest → read_Z (text_of_Z z ++ rest) = Some (z, rest).
Proof.
  intros Hrest. rewrite <-(DecimalZ.of_to z) at 2. unfold text_of_Z.
  assert (∀ p, nonempty_uint (Pos.to_uint p) = true) as Hne.
  { intros p. pose proof (Unsigned.to_uint_nonnil p). by destruct (Pos.to_uint p). }
  destruct z as [|p|p]; simpl.
  - destruct rest as [|c rest]; simpl; [done|]. simpl in Hrest. by rewrite Hrest.
  - destruct (text_of_uint_head (Pos.to_uint p)) as (c & s & Hcs & _ & Hc);
      [apply Unsigned.to_uint_nonnil|].
    unfold read_Z. rewrite Hcs. cbn [app]. rewrite Hc.
    rewrite app_comm_cons, <-Hcs.
    rewrite read_uint_text by done. by rewrite Hne.
  - rewrite read_uint_text by done. by rewrite Hne.
Qed.

Lemma num_start_not (c : ascii) :
  num_start c →
  Ascii.eqb c "n" = false ∧ Ascii.eqb c "t" = false ∧ Ascii.eqb c "f" = false ∧
  Ascii.eqb c quote_char = false ∧ Ascii.eqb c "[" = false ∧ Ascii.eqb c "{" = false ∧
  Ascii.eqb c "]" = false ∧ Ascii.eqb c "}" = false.
Proof.
  intros [[d Hd]| ->]; [|done]. unfold digit_of in Hd.
  repeat match type of Hd with
         | (if Ascii.eqb c ?x then _ else _) = _ =>
             destruct (Ascii.eqb_spec c x) as [->|_]; [repeat split; reflexivity|]
         end.
  done.
Qed.

Lemma read_chars_text (cs rest : list ascii) :
  read_chars (escape_chars cs ++ quote_char :: rest) = Some (cs, rest).
Proof.
  induction cs as [|c cs IH]; simpl; [done|].
  unfold escaped.
  destruct (Ascii.eqb_spec c quote_char) as [->|Hq]; simpl; [by rewrite IH|].
  destruct (Ascii.eqb_spec c backslash_char) as [->|Hb]; simpl; [by rewrite IH|].
  rewrite (proj2 (Ascii.eqb_neq _ _) Hq), (proj2 (Ascii.eqb_neq _ _) Hb).
  by rewrite IH.
Qed.

Lemma read_str_text (s : string) (rest : list ascii) :
  read_str (text_of_str s ++ rest) = Some (s, rest).
Proof.
  unfold read_str, text_of_str. simpl. rewrite <-app_assoc. simpl.
  rewrite read_chars_text. unfold chars_of.
  by rewrite String.string_of_list_ascii_of_string.
Qed.

Section reading_items.
Context {A : Type} (item : list ascii → option (A * list ascii)) (close : ascii)
  (pr : A → list ascii).
Hypothesis close_not_comma : Ascii.eqb ","%char close = false.
Hypothesis close_not_digit : digit_of close = None.

Lemma read_more_text (xs : list A) (n : nat) (rest : list ascii) :
  Forall (reads_back item close pr) xs →
  length xs < n →
  read_more item close n (List.concat ((λ y, ","%char :: pr y) <$> xs) ++ close :: rest)
  = Some (xs, rest).
Proof.
  intros Hxs. revert n. induction Hxs as [|x xs [Hx _] _ IH]; intros n Hn.
  - destruct n as [|n]; [lia|]. cbn [fmap list_fmap List.concat app read_more].
    by rewrite Ascii.eqb_refl.
  - destruct n as [|n]; [simpl in Hn; lia|].
    rewrite fmap_cons. cbn [List.concat app read_more].
    rewrite close_not_comma, Ascii.eqb_refl. rewrite <-app_assoc, Hx.
    + rewrite IH; [done|]. simpl in Hn. lia.
    + destruct xs; [by cbn|]. rewrite fmap_cons. by cbn.
Qed.

Lemma length_commas (xs : list A) (rest : list ascii) :
  length xs < length (List.concat ((λ y, ","%char :: pr y) <$> xs) ++ close :: rest).
Proof.
  induction xs as [|x xs IH].
  - cbn [fmap list_fmap List.concat app length]. lia.
  - rewrite fmap_cons. cbn [List.concat].
    rewrite !length_app, !length_cons in *. lia.
Qed.

Lemma read_items_text (xs : list A) (rest : list ascii) :
  Forall (reads_back item close pr) xs →
  read_items item close (comma_separated (pr <$> xs) ++ close :: rest) = Some (xs, rest).
Proof.
  intros Hxs. destruct Hxs as [|x xs [Hx (c & s & Hc & Hclose)] Hxs].
  - cbn [fmap list_fmap comma_separated app read_items]. by rewrite Ascii.eqb_refl.
  - rewrite fmap_cons. cbn [comma_separated]. rewrite <-list_fmap_compose, <-app_assoc.
    change ((λ y, ","%char :: y) ∘ pr) with (λ y, ","%char :: pr y).
    unfold read_items. rewrite Hc. cbn [app]. rewrite Hclose.
    rewrite app_comm_cons, <-Hc.
    rewrite Hx.
    + rewrite read_more_text; [done|done|]. apply length_commas.
    + destruct xs; [by cbn|]. rewrite fmap_cons. by cbn.
Qed.
End reading_items.

Lemma read_json_null (fuel : nat) (rest : list ascii) :
  read_json (S fuel) (chars_of "null" ++ rest) = Some (JNull, rest).
Proof. reflexivity. Qed.

Lemma read_json_bool (fuel : nat) (b : bool) (rest : list ascii) :
  read_json (S fuel) (text_of_json (JBool b) ++ rest) = Some (JBool b, rest).
Proof. by destruct b. Qed.

Lemma read_json_str (fuel : nat) (r : list ascii) :
  read_json (S fuel) (quote_char :: r)
  = match read_str (quote_char :: r) with
    | Some (k, rest) => Some (JStr k, rest)
    | None => None
    end.
Proof. reflexivity. Qed.

Lemma read_json_arr (fuel : nat) (r : list ascii) :
  read_json (S fuel) ("["%char :: r)
  = match read_items (read_json fuel) "]" r with
    | Some (xs, rest) => Some (JArr xs, rest)
    | None => None
    end.
Proof. reflexivity. Qed.

Lemma read_json_obj (fuel : nat) (r : list ascii) :
  read_json (S fuel) ("{"%char :: r)
  = match read_items (read_member (read_json fuel)) "}" r with
    | Some (kvs, rest) => Some (JObj (list_to_map (reverse kvs)), rest)
    | None => None
    end.
Proof. reflexivity. Qed.

Lemma read_json_num (fuel : nat) (c : ascii) (r : list ascii) :
  num_start c →
  read_json (S fuel) (c :: r)
  = match read_Z (c :: r) with
    | Some (z, rest) => Some (JNum z, rest)
    | None => None
    end.
Proof.
  intros (Hn & Ht & Hf & Hq & Ha & Ho & _)%num_start_not.
  cbn [read_json]. by rewrite Hn, Ht, Hf, Hq, Ha, Ho.
Qed.

Lemma text_of_json_head (j : json) : ∃ c s, text_of_json j = c :: s ∧ Ascii.eqb c "]" = false.
Proof.
  destruct j as [|[]|z| | |]; try (by eexists _, _).
  destruct (text_of_Z_head z) as (c & s & Hcs & Hc). exists c, s. split; [done|].
  by apply num_start_not in Hc as (_ & _ & _ & _ & _ & _ & Hc & _).
Qed.

Lemma read_json_text (fuel : nat) (j : json) (rest : list ascii) :
  json_depth j < fuel → no_digit_head rest → read_json fuel (text_of_json j ++ rest) = Some (j, rest).
Proof.
  revert j rest. induction fuel as [|fuel IH]; intros j rest Hdepth Hrest; [lia|].
  destruct j as [|b|z|s|l|m].
  - apply read_json_null.
  - apply read_json_bool.
  - destruct (text_of_Z_head z) as (c & r & Hcs & Hc). cbn [text_of_json].
    rewrite Hcs. cbn [app]. rewrite read_json_num by done.
    rewrite app_comm_cons, <-Hcs. by rewrite read_Z_text.
  - cbn [text_of_json]. unfold text_of_str. cbn [app]. rewrite read_json_str.
    rewrite app_comm_cons. change (quote_char :: ?x ++ [quote_char]) with (text_of_str s).
    by rewrite (read_str_text s rest).
  - cbn [text_of_json app]. rewrite <-app_assoc. cbn [app]. rewrite read_json_arr.
    rewrite (read_items_text (read_json fuel) "]" text_of_json); [done..|].
    apply Forall_forall. intros x Hx. split; [|apply text_of_json_head].
    intros r Hr. apply IH; [|done]. apply json_depth_arr in Hx. lia.
  - cbn [text_of_json app]. rewrite <-app_assoc. cbn [app]. rewrite read_json_obj.
    rewrite map_to_list_fmap, <-list_fmap_compose.
    rewrite (read_items_text (read_member (read_json fuel)) "}"
               (text_of_member ∘ prod_map id text_of_json)); [|done..|].
    + do 3 f_equal. rewrite <-(list_to_map_to_list m) at 2.
      apply list_to_map_proper; [|by rewrite reverse_Permutation].
      rewrite fmap_reverse, reverse_Permutation. apply NoDup_fst_map_to_list.
    + apply Forall_forall. intros [k v] Hkv. split; [|by eexists _, _].
      intros r Hr. unfold read_member, compose, text_of_member, prod_map.
      cbn [fst snd id]. rewrite <-app_assoc. rewrite read_str_text. cbn [app].
      rewrite Ascii.eqb_refl. rewrite IH; [done| |done].
      apply json_depth_obj in Hkv. lia.
Qed.

(** Every level of nesting costs a bracket: the text is longer than the
    value is deep. *)
Lemma max_list_commas {A} (f : A → nat) (pr : A → list ascii) (l : list A) :
  Forall (λ x, f x ≤ length (pr x)) l →
  max_list (f <$> l) ≤ length (List.concat ((λ y, ","%char :: y) <$> (pr <$> l))).
Proof.
  induction 1 as [|x l Hx _ IH]; [done|].
  rewrite !fmap_cons. cbn [max_list List.concat id]. rewrite length_app, length_cons. lia.
Qed.

Lemma max_list_sep_concat {A} (f : A → nat) (pr : A → list ascii) (l : list A) :
  Forall (λ x, f x ≤ length (pr x)) l →
  max_list (f <$> l) ≤ length (comma_separated (pr <$> l)).
Proof.
  intros Hl. destruct Hl as [|x l Hx Hl]; [done|].
  rewrite !fmap_cons. cbn [max_list comma_separated id]. rewrite length_app.
  pose proof (max_list_commas f pr l Hl). lia.
Qed.

Lemma json_depth_le_length (n : nat) (j : json) : json_depth j ≤ n → json_depth j ≤ length (text_of_json j).
Proof.
  revert j. induction n as [|n IH]; intros j Hn.
  - lia.
  - destruct j as [| | | |l|m]; try (simpl; lia).
    + cbn [json_depth text_of_json]. rewrite length_cons, length_app, length_cons.
      pose proof (max_list_sep_concat json_depth text_of_json l) as Hmax.
      cbn [json_depth] in Hn. assert (Forall (λ x, json_depth x ≤ length (text_of_json x)) l) as Hl.
      { apply Forall_forall. intros x Hx. apply IH.
        pose proof (max_list_elem_of_le (json_depth x) (json_depth <$> l)
                      (list_elem_of_fmap_2 json_depth l x Hx)). lia. }
      specialize (Hmax Hl). simpl. lia.
    + cbn [json_depth text_of_json]. rewrite length_cons, length_app, length_cons.
      rewrite !map_to_list_fmap, <-!list_fmap_compose.
      pose proof (max_list_sep_concat (json_depth ∘ snd) (text_of_member ∘ prod_map id text_of_json)
                    (map_to_list m)) as Hmax.
      cbn [json_depth] in Hn. rewrite map_to_list_fmap, <-list_fmap_compose in Hn.
      change (snd ∘ prod_map id json_depth) with (json_depth ∘ (snd : string * json → json)) in *.
      assert (Forall (λ x : string * json,
                (json_depth ∘ snd) x ≤ length ((text_of_member ∘ prod_map id text_of_json) x))
                (map_to_list m)) as Hl.
      { apply Forall_forall. intros [k v] Hkv. unfold compose, text_of_member, prod_map.
        cbn [fst snd]. rewrite length_app, length_cons.
        assert (json_depth v ≤ length (text_of_json v)); [|lia]. apply IH.
        pose proof (max_list_elem_of_le (json_depth v) ((json_depth ∘ snd) <$> map_to_list m)
                      (list_elem_of_fmap_2 (json_depth ∘ snd) _ (k, v) Hkv)). lia. }
      specialize (Hmax Hl). simpl. lia.
Qed.

Lemma length_string_of_list_ascii (l : list ascii) :
  String.length (String.string_of_list_ascii l) = length l.
Proof. induction l; simpl; by f_equal. Qed.

Lemma json_loads_dumps (v : json) : json_loads (json_dumps v) = Some v.
Proof.
  unfold json_loads, json_dumps, chars_of.
  rewrite String.list_ascii_of_string_of_list_ascii, length_string_of_list_ascii.
  rewrite <-(app_nil_r (text_of_json v)) at 2. rewrite read_json_text; [done| |done].
  pose proof (json_depth_le_length (json_depth v) v). lia.
Qed.
End json_text.

Global Instance reference_codec : JsonCodec :=
  {| dumps := json_dumps; loads := json_loads;
     loads_dumps := json_loads_dumps |}.

(** ** The persistence layer *)

Section Persistence_proofs.
Context `{JsonCodec}.

Ltac unfold_io :=
  unfold save_data_to_json, load_data_from_json, try_except, with_open, json_dump,
    json_load, py_open, py_write, py_read, py_close, io_bind, next_fault, set_file,
    get_file, io_ret, io_raise, print, no_fault in *.

Lemma save_returns (data : json) (file_path : string) (w : world) :
  ∃ w' line, save_data_to_json data file_path w = (inr tt, w') ∧
    stdout w' = stdout w ++ [line].
Proof.
  destruct w as [fs out fl]. unfold_io. simpl.
  destruct fl as [|[n1|] [|[n2|] [|[n3|] fl]]]; simpl;
    rewrite ?lookup_insert_eq; simpl; by eexists _, _.
Qed.

Lemma save_no_fault (data : json) (file_path : string) (w : world) :
  no_fault 3 w = true →
  ∃ w', save_data_to_json data file_path w = (inr tt, w') ∧
    files w' = <[file_path := dumps data]> (files w) ∧
    stdout w' = stdout w ++ ["Data saved to " +:+ file_path] ∧
    faults w' = drop 3 (faults w).
Proof.
  destruct w as [fs out fl]. unfold_io. simpl.
  destruct fl as [|[n1|] [|[n2|] [|[n3|] fl]]]; simpl; try done; intros _;
    rewrite ?lookup_insert_eq; simpl; eexists; (split; [done|]); simpl;
    by rewrite insert_insert_eq.
Qed.

Lemma load_value (file_path : string) (w : world) :
  ∃ w', load_data_from_json file_path w = (inr (load_result file_path w), w').
Proof.
  destruct w as [fs out fl]. unfold load_result. unfold_io. simpl.
  destruct (fs !! file_path) as [text|] eqn:Hfile;
    [destruct (loads text) as [v|] eqn:Hloads|];
    destruct fl as [|[n1|] [|[n2|] [|[n3|] fl]]];
    repeat (simpl; rewrite ?Hfile, ?Hloads); by eexists.
Qed.
End Persistence_proofs.

Lemma take_add_drop {A} (n m : nat) (l : list A) :
  take (n + m) l = take n l ++ take m (drop n l).
Proof.
  revert l. induction n as [|n IH]; intros [|x l]; simpl; try done.
  - by rewrite take_nil.
  - by rewrite IH.
Qed.

Lemma no_fault_add (n m : nat) (w : world) :
  no_fault (n + m) w = true →
  no_fault n w = true ∧
  forallb (λ f : fault, match f with None => true | Some _ => false end)
          (take m (drop n (faults w))) = true.
Proof.
  unfold no_fault. rewrite take_add_drop, forallb_app. by intros [??]%andb_true_iff.
Qed.

Lemma save_then_load `{JsonCodec} (data : json) (file_path : string) (w : world) :
  no_fault 6 w = true →
  ∃ w1 w2,
    save_data_to_json data file_path w = (inr tt, w1) ∧
    load_data_from_json file_path w1 = (inr data, w2).
Proof.
  intros [Hsave Hload]%(no_fault_add 3 3).
  destruct (save_no_fault data file_path w Hsave) as (w1 & Hw1 & Hfiles & _ & Hfaults).
  destruct (load_value file_path w1) as [w2 Hw2].
  exists w1, w2. split; [done|]. rewrite Hw2. do 2 f_equal.
  unfold load_result, no_fault. rewrite Hfaults, Hload, Hfiles, lookup_insert_eq.
  by rewrite loads_dumps.
Qed.

Lemma json_field_obj (m : gmap string json) (k : string) : json_field (JObj m) k = m !! k.
Proof. done. Qed.

Global Instance point_to_json_inj : Inj (=) (=) point_to_json.
Proof.
  intros p q. destruct p as [y1 v1], q as [y2 v2]. unfold point_to_json. cbn [year emission].
  intros Heq.
  assert (Hy := f_equal (λ j, json_field j "year") Heq).
  assert (Hv := f_equal (λ j, json_field j "emission") Heq).
  cbv beta in Hy, Hv. rewrite !json_field_obj in Hy, Hv.
  rewrite !lookup_insert_eq in Hy.
  rewrite !lookup_insert_ne, !lookup_singleton_eq in Hv by done.
  by simplify_eq.
Qed.

Global Instance series_to_json_inj : Inj (=) (=) series_to_json.
Proof.
  intros c d. destruct c as [c1 d1], d as [c2 d2]. unfold series_to_json. cbn [country_code data].
  intros Heq.
  assert (Hc := f_equal (λ j, json_field j "country_code") Heq).
  assert (Hd := f_equal (λ j, json_field j "data") Heq).
  cbv beta in Hc, Hd. rewrite !json_field_obj in Hc, Hd.
  rewrite !lookup_insert_eq in Hc.
  rewrite !lookup_insert_ne, !lookup_singleton_eq in Hd by done.
  clear Heq. injection Hc as ->. injection Hd as Hd. f_equal.
  by apply (inj (fmap point_to_json)).
Qed.

Lemma dataset_to_json_inj (ds ds' : list (CountrySeries json)) :
  dataset_to_json ds = dataset_to_json ds' → ds = ds'.
Proof.
  unfold dataset_to_json. intros Heq.
  assert (series_to_json <$> ds = series_to_json <$> ds') as Hl by congruence.
  by apply (inj (fmap series_to_json)).
Qed.

(** C2: when none of the I/O operations of the save and of the load fails,
    saving a dataset to a path and loading from that path afterwards
    returns the value that was saved, and that value stands for the
    dataset saved and for no other. The codec is any codec that keeps the
    contract of the json library. *)
Theorem C2_save_then_load_round_trip `{JsonCodec} (ds : list (CountrySeries json))
    (file_path : string) (w : world) :
  no_fault 6 w = true →
  ∃ w1 w2 loaded,
    save_data_to_json (dataset_to_json ds) file_path w = (inr tt, w1) ∧
    load_data_from_json file_path w1 = (inr loaded, w2) ∧
    loaded = dataset_to_json ds ∧
    ∀ ds', loaded = dataset_to_json ds' → ds' = ds.
Proof.
  intros Hquiet.
  destruct (save_then_load (dataset_to_json ds) file_path w Hquiet) as (w1 & w2 & Hs & Hl).
  exists w1, w2, (dataset_to_json ds). split; [done|]. split; [done|]. split; [done|].
  intros ds' Heq. symmetry. by apply dataset_to_json_inj.
Qed.

Lemma C2_witness :
  ∃ w1 w2 loaded,
    save_data_to_json (dataset_to_json example_dataset) "out.json" empty_world
    = (inr tt, w1) ∧
    load_data_from_json "out.json" w1 = (inr loaded, w2) ∧
    loaded = dataset_to_json example_dataset ∧
    ∀ ds', loaded = dataset_to_json ds' → ds' = example_dataset.
Proof.
  apply (C2_save_then_load_round_trip (H := reference_codec)). reflexivity.
Defined.

Lemma save_fault_logged `{JsonCodec} (data : json) (file_path : string) (w : world) :
  no_fault 3 w = false →
  ∃ w', save_data_to_json data file_path w = (inr tt, w') ∧
    stdout w' = stdout w ++ ["Error saving data to JSON: OSError"].
Proof.
  destruct w as [fs out fl]. unfold save_data_to_json, load_data_from_json, try_except,
    with_open, json_dump, json_load, py_open, py_write, py_read, py_close, io_bind,
    next_fault, set_file, get_file, io_ret, io_raise, print, no_fault. simpl.
  destruct fl as [|[n1|] [|[n2|] [|[n3|] fl]]]; simpl; try done; intros _;
    rewrite ?lookup_insert_eq; simpl; by eexists.
Qed.

(** C5: whatever I/O operation fails, and whatever the files are,
    [save_data_to_json] returns normally, having printed one line (the
    error, when an operation failed); and [load_data_from_json] returns
    normally, with the empty sequence when the file is missing, when its
    text is not JSON, or when one of its I/O operations fails. *)
Theorem C5_save_and_load_never_raise `{JsonCodec} (data : json) (file_path : string)
    (w : world) :
  (∃ w' line, save_data_to_json data file_path w = (inr tt, w') ∧
     stdout w' = stdout w ++ [line] ∧
     (no_fault 3 w = false → line = "Error saving data to JSON: OSError")) ∧
  (∃ w' loaded, load_data_from_json file_path w = (inr loaded, w') ∧
     (files w !! file_path = None → loaded = JArr []) ∧
     (∀ text, files w !! file_path = Some text → loads text = None → loaded = JArr []) ∧
     (no_fault 3 w = false → loaded = JArr [])).
Proof.
  split.
  - destruct (save_returns data file_path w) as (w' & line & Hsave & Hout).
    exists w', line. split; [done|]. split; [done|]. intros Hfault.
    destruct (save_fault_logged data file_path w Hfault) as (w'' & Hsave' & Hout').
    rewrite Hsave in Hsave'. injection Hsave' as <-. rewrite Hout in Hout'.
    by apply app_inv_head in Hout' as [= ->].
  - destruct (load_value file_path w) as [w' Hload].
    exists w', (load_result file_path w). split; [done|]. unfold load_result.
    split; [|split].
    + intros ->. by destruct (no_fault 3 w).
    + intros text -> ->. by destruct (no_fault 3 w).
    + by intros ->.
Qed.

Lemma C5_witness :
  ∃ w' loaded,
    load_data_from_json (H := reference_codec) "out.json"
      (World {[ "out.json" := "{oops" ]} [] []) = (inr loaded, w') ∧
    loaded = JArr [].
Proof.
  destruct (C5_save_and_load_never_raise (H := reference_codec) JNull "out.json"
              (World {[ "out.json" := "{oops" ]} [] []))
    as (_ & w' & loaded & Hload & _ & Hmalformed & _).
  exists w', loaded. split; [exact Hload|].
  apply (Hmalformed "{oops"); reflexivity.
Defined.

(** * Further properties *)

(** ** The fetch phase *)

Lemma fetch_data_effect (session : ClientSession) (code : string) (w : world) :
  fetch_data session api_url (country_params code) w
  = (inr (response_of session code),
     World (files w)
           (stdout w ++ match get_json session api_url (country_params code) with
                        | inl e => ["Error fetching data: " +:+ show_exn e]
                        | inr _ => []
                        end)
           (faults w)).
Proof.
  unfold fetch_data, try_except, io_lift, response_of, io_bind, print, io_ret.
  destruct (get_json session api_url (country_params code)); simpl; [done|].
  rewrite app_nil_r. by destruct w.
Qed.

Lemma gather_fetch_data_effect (session : ClientSession) (codes : list string) (w : world) :
  ∃ w' lines,
    gather ((λ code, fetch_data session api_url (country_params code)) <$> codes) w
    = (inr (response_of session <$> codes), w') ∧
    files w' = files w ∧ faults w' = faults w ∧
    stdout w' = stdout w ++ lines ∧
    length lines = length (filter (λ c, fetch_fails session c = true) codes).
Proof.
  revert w. induction codes as [|c codes IH]; intros w.
  - exists w, []. csimpl. by rewrite app_nil_r.
  - rewrite !fmap_cons. cbn [gather]. unfold io_bind at 1.
    rewrite fetch_data_effect. unfold io_bind at 1.
    destruct (IH (World (files w)
                    (stdout w ++ match get_json session api_url (country_params c) with
                                 | inl e => ["Error fetching data: " +:+ show_exn e]
                                 | inr _ => []
                                 end) (faults w)))
      as (w' & lines & -> & Hf & Hfl & Hout & Hlen).
    simpl in Hf, Hfl, Hout. eexists w', _. split; [done|].
    split; [done|]. split; [done|]. split.
    + rewrite Hout, <-app_assoc. done.
    + rewrite length_app, filter_cons, Hlen.
      destruct (get_json session api_url (country_params c)) eqn:Hget.
      * by rewrite decide_True by (unfold fetch_fails; by rewrite Hget).
      * by rewrite decide_False by (unfold fetch_fails; by rewrite Hget).
Qed.

(** X1: the fan-out has no fail-fast: whatever the session does, gathering
    the fetches of a list of codes returns one response per code, in
    request order, with None for each fetch that raised; it prints one
    line per fetch that raised and leaves the files alone. *)
Theorem X1_gather_of_fetches_always_completes (session : ClientSession)
    (codes : list string) (w : world) :
  ∃ w' lines,
    gather ((λ code, fetch_data session api_url (country_params code)) <$> codes) w
    = (inr (response_of session <$> codes), w') ∧
    length (response_of session <$> codes) = length codes ∧
    (∀ i code, codes !! i = Some code → fetch_fails session code = true →
       (response_of session <$> codes) !! i = Some JNull) ∧
    files w' = files w ∧ faults w' = faults w ∧
    stdout w' = stdout w ++ lines ∧
    length lines = length (filter (λ c, fetch_fails session c = true) codes).
Proof.
  destruct (gather_fetch_data_effect session codes w) as (w' & lines & Hg & Hrest).
  exists w', lines. split; [done|]. split; [by rewrite length_fmap|]. split; [|done].
  intros i code Hi Hfail. rewrite list_lookup_fmap, Hi. simpl. f_equal.
  unfold fetch_fails in Hfail. unfold response_of.
  by destruct (get_json session api_url (country_params code)).
Qed.

Lemma py_items_not_mapping (v : json) :
  (∀ m, v ≠ JObj m) → py_items v = throw AttributeError.
Proof. intros Hv. destruct v; try done. by destruct (Hv m). Qed.

Lemma loop_value_raise (pre post : list (string * json)) (code : string) (response : json)
    (e : exn) :
  Forall (λ cr, no_series cr.2 ∨ is_Some (series_of cr.2)) pre →
  (let* b := has_series response in
   if b : bool then let* pts := series_data response in ok [mkSeries code pts]
   else ok []) = throw e →
  loop_value (pre ++ (code, response) :: post) [] = throw e.
Proof.
  intros Hpre Hraise. rewrite loop_value_app, (loop_value_benign pre Hpre).
  unfold ok. cbn [loop_value].
  destruct (has_series response) as [e'|[]]; simpl in *; [done|..|done].
  by destruct (series_data response).
Qed.

(** X2: [parse_country_data] has no handler of its own: a response whose
    [series] field is there but is not a mapping, a response that is true
    or a non-zero number, and a list that contains the string [series]
    make the whole call raise (AttributeError, TypeError), however many
    codes before it were fine: no partial result is returned. *)
Theorem X2_malformed_response_aborts_the_batch (session : ClientSession)
    (pre post : list string) (code : string) (w : world) :
  Forall (λ c, fetch_drops session c = true ∨ fetch_carries session c = true) pre →
  (∀ body v,
     response_of session code = JObj body → body !! "series" = Some v →
     (∀ m, v ≠ JObj m) →
     (parse_country_data session (pre ++ code :: post) w).1 = inl AttributeError) ∧
  (∀ z,
     response_of session code = JNum z → z ≠ 0%Z →
     (parse_country_data session (pre ++ code :: post) w).1 = inl TypeError) ∧
  (response_of session code = JBool true →
   (parse_country_data session (pre ++ code :: post) w).1 = inl TypeError) ∧
  (∀ l,
     response_of session code = JArr l → JStr "series" ∈ l →
     (parse_country_data session (pre ++ code :: post) w).1 = inl TypeError).
Proof.
  intros Hpre.
  assert (Forall (λ cr : string * json, no_series cr.2 ∨ is_Some (series_of cr.2))
            (tagged_responses session pre)) as Hpre'.
  { unfold tagged_responses. rewrite Forall_fmap.
    eapply Forall_impl; [done|]. intros c [Hd|Hc]; simpl.
    - left. by apply fetch_drops_no_series.
    - right. unfold fetch_carries in Hc.
      by destruct (series_of (response_of session c)). }
  assert (∀ e,
    (let* b := has_series (response_of session code) in
     if b : bool
     then let* pts := series_data (response_of session code) in ok [mkSeries code pts]
     else ok []) = throw e →
    (parse_country_data session (pre ++ code :: post) w).1 = inl e) as Hraise.
  { intros e He. rewrite parse_country_data_value, tagged_responses_app.
    unfold tagged_responses at 2. rewrite fmap_cons.
    by apply loop_value_raise. }
  split; [|split; [|split]].
  - intros body v Hresp Hseries Hv. apply Hraise. rewrite Hresp.
    unfold has_series. simpl.
    rewrite bool_decide_eq_false_2
      by (intros ->; by rewrite lookup_empty in Hseries).
    simpl. rewrite bool_decide_eq_true_2 by (by rewrite Hseries). simpl.
    unfold series_data. simpl. rewrite Hseries. simpl.
    by rewrite py_items_not_mapping.
  - intros z Hresp Hz. apply Hraise. rewrite Hresp. unfold has_series. simpl.
    by rewrite (proj2 (Z.eqb_neq z 0) Hz).
  - intros Hresp. apply Hraise. by rewrite Hresp.
  - intros l Hresp Hl. apply Hraise. rewrite Hresp. unfold has_series. simpl.
    assert (l ≠ []) as Hne by (intros ->; by apply elem_of_nil in Hl).
    rewrite bool_decide_eq_false_2 by done. simpl.
    assert (existsb (str_eq_json "series") l = true) as ->; [|done].
    apply existsb_exists. exists (JStr "series"). split; [|done].
    by apply list_elem_of_In.
Qed.

Lemma X2_witness :
  (parse_country_data broken_session (["AUS"; "BEL"] ++ "AUT" :: ["USA"]) empty_world).1
  = inl AttributeError.
Proof.
  eapply (proj1 (X2_malformed_response_aborts_the_batch broken_session
                   ["AUS"; "BEL"] ["USA"] "AUT" empty_world _)).
  - reflexivity.
  - reflexivity.
  - intros m. discriminate.
  Unshelve.
  repeat first [ apply Forall_nil_2 | apply Forall_cons_2
               | left; reflexivity | right; reflexivity ].
Defined.

Lemma X1_witness :
  (response_of example_session <$> ["AUS"; "BEL"]) !! 1%nat = Some JNull.
Proof.
  destruct (X1_gather_of_fetches_always_completes example_session ["AUS"; "BEL"]
              empty_world) as (w' & lines & _ & _ & Hnone & _).
  apply (Hnone 1%nat "BEL"); reflexivity.
Defined.

Lemma fetch_eu_data_effect (session : ClientSession) (w : world) :
  ∃ line, fetch_eu_data session w
          = (inr (eu_entries session), World (files w) (stdout w ++ [line]) (faults w)).
Proof.
  unfold fetch_eu_data, eu_entries, try_except, io_bind, io_lift, print, io_ret.
  destruct (get_json session api_url eu_params) as [e|eu_data]; simpl; [by eexists|].
  destruct (py_in "series" eu_data) as [e|[]]; simpl; [by eexists|..|by eexists].
  destruct (series_data eu_data) as [e|pts]; simpl; by eexists.
Qed.

(** X3: [fetch_eu_data] never raises, whatever the session does: it
    returns the empty list or the one entry tagged EU, prints exactly one
    line and leaves the files alone. It returns the empty list for a body
    that is the JSON value null, where the membership test raises in it,
    and for a [series] field that is not a mapping, where
    [parse_country_data] raises. *)
Theorem X3_fetch_eu_data_never_raises (session : ClientSession) (w : world) :
  ∃ EU_data w' line,
    fetch_eu_data session w = (inr EU_data, w') ∧
    (EU_data = [] ∨ ∃ pts, EU_data = [mkSeries "EU" pts]) ∧
    files w' = files w ∧ faults w' = faults w ∧ stdout w' = stdout w ++ [line] ∧
    (get_json session api_url eu_params = ok JNull → EU_data = []) ∧
    (∀ body v,
       get_json session api_url eu_params = ok (JObj body) →
       body !! "series" = Some v → (∀ m, v ≠ JObj m) → EU_data = []).
Proof.
  destruct (fetch_eu_data_effect session w) as [line Heu].
  exists (eu_entries session), (World (files w) (stdout w ++ [line]) (faults w)), line.
  split; [done|]. split; [apply eu_entries_shape|]. do 3 (split; [done|]). split.
  - intros Hget. unfold eu_entries. by rewrite Hget.
  - intros body v Hget Hseries Hv. unfold eu_entries. rewrite Hget. simpl.
    rewrite bool_decide_eq_true_2 by (by rewrite Hseries).
    unfold series_data. simpl. rewrite Hseries. simpl.
    by rewrite py_items_not_mapping.
Qed.

Lemma X3_witness :
  ∃ EU_data w', fetch_eu_data broken_session empty_world = (inr EU_data, w') ∧
    EU_data = [].
Proof.
  destruct (X3_fetch_eu_data_never_raises broken_session empty_world)
    as (EU_data & w' & line & Heu & _ & _ & _ & _ & Hnull & _).
  exists EU_data, w'. split; [exact Heu|]. apply Hnull. reflexivity.
Defined.

Lemma parse_loop_benign (session : ClientSession) (codes : list string)
    (acc : list (CountrySeries json)) (w : world) :
  Forall (λ c, fetch_drops session c = true ∨ fetch_carries session c = true) codes →
  parse_loop (tagged_responses session codes) acc w
  = (inr (acc ++ omap (λ cr, entry_of cr.1 cr.2) (tagged_responses session codes)),
     World (files w)
           (stdout w
            ++ (no_data_line <$> filter (λ c, fetch_carries session c = false) codes))
           (faults w)).
Proof.
  intros Hcodes. revert acc w.
  induction Hcodes as [|c codes Hc _ IH]; intros acc w.
  - simpl. rewrite !app_nil_r. by destruct w.
  - unfold tagged_responses. rewrite fmap_cons. fold (tagged_responses session codes).
    cbn [parse_loop omap list_omap fst snd]. unfold io_bind at 1, io_lift at 1.
    rewrite filter_cons. destruct Hc as [Hd|Hc].
    + pose proof (fetch_drops_not_carries _ _ Hd) as Hnc.
      pose proof (fetch_drops_no_series _ _ Hd) as Hno.
      rewrite (has_series_no_series _ Hno). rewrite decide_True by done.
      unfold ok. cbv beta iota.
      unfold io_bind at 1, print at 1. rewrite IH. simpl.
      assert (entry_of c (response_of session c) = None) as ->.
      { unfold entry_of. unfold fetch_carries in Hnc.
        by destruct (series_of (response_of session c)). }
      by rewrite <-app_assoc.
    + rewrite decide_False by (by rewrite Hc). unfold fetch_carries in Hc.
      destruct (series_of (response_of session c)) as [m|] eqn:Hm; [|done].
      rewrite (has_series_series_of _ m Hm).
      destruct (series_data_spec _ _ Hm) as (pts & Hpts & _).
      unfold ok. cbv beta iota.
      unfold io_bind at 1, io_lift at 1. rewrite Hpts. unfold ok. rewrite IH.
      unfold entry_of. rewrite Hm, Hpts. unfold ok. by rewrite <-app_assoc.
Qed.

(** X4: when every code of the batch either is dropped or carries a
    series, [parse_country_data] prints, after whatever the fetches
    printed, exactly one line [No data available for CODE.] per code
    without a series, in request order, and prints nothing for the
    others. *)
Theorem X4_one_diagnostic_per_dropped_code (session : ClientSession)
    (codes : list string) (w : world) :
  Forall (λ c, fetch_drops session c = true ∨ fetch_carries session c = true) codes →
  ∃ ds w' fetch_lines,
    parse_country_data session codes w = (inr ds, w') ∧
    stdout w'
    = stdout w ++ fetch_lines
      ++ (no_data_line <$> filter (λ c, fetch_carries session c = false) codes) ∧
    length fetch_lines = length (filter (λ c, fetch_fails session c = true) codes).
Proof.
  intros Hcodes. unfold parse_country_data, io_bind.
  destruct (gather_fetch_data_effect session codes w)
    as (w1 & lines & -> & Hfiles & Hfaults & Hout & Hlen).
  rewrite zip_fmap_r. fold (tagged_responses session codes).
  rewrite (parse_loop_benign session codes [] w1 Hcodes).
  eexists _, _, lines. split; [done|]. simpl. split; [|done].
  by rewrite Hout, <-app_assoc.
Qed.

Lemma X4_witness :
  ∃ ds w' fetch_lines,
    parse_country_data example_session ["AUS"; "AUT"; "BEL"] empty_world = (inr ds, w') ∧
    stdout w'
    = stdout empty_world ++ fetch_lines
      ++ (no_data_line
            <$> filter (λ c, fetch_carries example_session c = false)
                       ["AUS"; "AUT"; "BEL"]) ∧
    length fetch_lines
    = length (filter (λ c, fetch_fails example_session c = true) ["AUS"; "AUT"; "BEL"]).
Proof.
  apply X4_one_diagnostic_per_dropped_code.
  repeat first [ apply Forall_nil_2 | apply Forall_cons_2
               | left; reflexivity | right; reflexivity ].
Defined.

Lemma parse_loop_frame (pairs : list (string * json)) (acc : list (CountrySeries json))
    (w : world) :
  files (parse_loop pairs acc w).2 = files w ∧
  faults (parse_loop pairs acc w).2 = faults w.
Proof.
  revert acc w. induction pairs as [|[code response] rest IH]; intros acc w; [done|].
  cbn [parse_loop]. unfold io_bind at 1 3, io_lift at 1 3.
  destruct (has_series response) as [e|[]]; [done|..].
  - unfold io_bind at 1 2, io_lift at 1 2.
    destruct (series_data response) as [e|pts]; [done|]. apply IH.
  - unfold io_bind at 1 2, print at 1 2.
    apply (IH acc (World (files w) (stdout w ++ [no_data_line code]) (faults w))).
Qed.

Lemma fetch_combined_frame (session : ClientSession)
    (country_codes : list string) (w : world) :
  files (fetch_combined session country_codes w).2 = files w ∧
  faults (fetch_combined session country_codes w).2 = faults w.
Proof.
  unfold fetch_combined. unfold io_bind at 1 3.
  assert (files (parse_country_data session country_codes w).2 = files w ∧
          faults (parse_country_data session country_codes w).2 = faults w) as Hparse.
  { unfold parse_country_data, io_bind.
    destruct (gather_fetch_data_effect session country_codes w)
      as (w1 & lines & -> & Hfiles & Hfaults & _).
    destruct (parse_loop_frame
                (zip country_codes (response_of session <$> country_codes)) [] w1)
      as [Hf Hfl]. by rewrite Hf, Hfl. }
  destruct (parse_country_data session country_codes w) as [[e|country_data] w1];
    [done|]. simpl in Hparse. destruct Hparse as [Hf Hfl].
  unfold io_bind. destruct (fetch_eu_data_effect session w1) as [line ->].
  simpl. done.
Qed.

(** X5: the whole fetch phase of [main], the country batch and the EU
    fetch, never touches the file system, whether it returns or raises:
    the files and the pending I/O faults are what they were. *)
Theorem X5_fetch_phase_leaves_files_alone (session : ClientSession)
    (country_codes : list string) (w : world) :
  files (fetch_combined session country_codes w).2 = files w ∧
  faults (fetch_combined session country_codes w).2 = faults w.
Proof. apply fetch_combined_frame. Qed.

Lemma parse_loop_dropped (pairs : list (string * json)) (acc : list (CountrySeries json))
    (w : world) :
  Forall (λ cr, dropped_response cr.2) pairs →
  parse_loop pairs acc w
  = (inr acc, World (files w) (stdout w ++ (no_data_line <$> pairs.*1)) (faults w)).
Proof.
  intros Hpairs. revert w.
  induction Hpairs as [|[code response] rest Hcr _ IH]; intros w.
  - simpl. rewrite app_nil_r. by destruct w.
  - simpl in Hcr. cbn [parse_loop]. unfold io_bind at 1, io_lift at 1.
    rewrite (has_series_dropped _ Hcr). unfold ok. cbv beta iota.
    unfold io_bind at 1, print at 1. rewrite IH. simpl.
    by rewrite <-app_assoc.
Qed.

(** X17: the test of line 31 is truthiness and membership, not a type
    check: None, false, zero, a string in which [series] does not occur, a
    list without the string [series] and an object without the key are all
    dropped the same way. A batch of such responses returns the empty list
    without raising, prints, after the lines of the fetches that raised,
    one line [No data available for CODE.] per code in request order, and
    leaves the files alone. *)
Theorem X17_falsy_responses_are_dropped (session : ClientSession)
    (codes : list string) (w : world) :
  Forall (λ c, dropped_response (response_of session c)) codes →
  ∃ w' fetch_lines,
    parse_country_data session codes w = (inr [], w') ∧
    stdout w' = stdout w ++ fetch_lines ++ (no_data_line <$> codes) ∧
    length fetch_lines = length (filter (λ c, fetch_fails session c = true) codes) ∧
    files w' = files w.
Proof.
  intros Hcodes. unfold parse_country_data, io_bind.
  destruct (gather_fetch_data_effect session codes w)
    as (w1 & lines & -> & Hfiles & Hfaults & Hout & Hlen).
  rewrite zip_fmap_r, parse_loop_dropped.
  - eexists _, lines. split; [done|]. simpl.
    assert (((λ x, (x, response_of session x)) <$> codes).*1 = codes) as ->.
    { rewrite <-list_fmap_compose. etrans; [|apply list_fmap_id].
      by apply list_fmap_ext. }
    by rewrite Hout, <-app_assoc.
  - rewrite Forall_fmap. eapply Forall_impl; [done|]. by intros c Hc.
Qed.

Lemma X17_witness :
  ∃ w' fetch_lines,
    parse_country_data scalar_session ["AUS"; "AUT"; "BEL"; "BGR"; "CAN"] empty_world
    = (inr [], w') ∧
    stdout w'
    = stdout empty_world ++ fetch_lines
      ++ (no_data_line <$> ["AUS"; "AUT"; "BEL"; "BGR"; "CAN"]) ∧
    length fetch_lines
    = length (filter (λ c, fetch_fails scalar_session c = true)
                     ["AUS"; "AUT"; "BEL"; "BGR"; "CAN"]) ∧
    files w' = files empty_world.
Proof.
  apply X17_falsy_responses_are_dropped.
  repeat first [ apply Forall_nil_2 | apply Forall_cons_2 ]; try reflexivity.
  intros Hin%list_elem_of_singleton. discriminate Hin.
Defined.

(** X18: a body that is a JSON string in which [series] occurs passes the
    test of line 31, as a substring test, and then makes the whole call
    raise TypeError at [response['series']], however many codes before it
    were fine. *)
Theorem X18_text_mentioning_series_aborts_the_batch (session : ClientSession)
    (pre post : list string) (code s : string) (w : world) :
  Forall (λ c, fetch_drops session c = true ∨ fetch_carries session c = true) pre →
  response_of session code = JStr s →
  is_substring "series" s = true →
  (parse_country_data session (pre ++ code :: post) w).1 = inl TypeError.
Proof.
  intros Hpre Hresp Hsub.
  rewrite parse_country_data_value, tagged_responses_app.
  unfold tagged_responses at 2. rewrite fmap_cons.
  apply loop_value_raise.
  - unfold tagged_responses. rewrite Forall_fmap.
    eapply Forall_impl; [done|]. intros c [Hd|Hc]; simpl.
    + left. by apply fetch_drops_no_series.
    + right. unfold fetch_carries in Hc.
      by destruct (series_of (response_of session c)).
  - rewrite Hresp. unfold has_series. simpl. rewrite Hsub.
    destruct s as [|a s']; [done|]. done.
Qed.

Lemma X18_witness :
  (parse_country_data scalar_session (["CAN"; "DEU"] ++ "BLR" :: ["USA"]) empty_world).1
  = inl TypeError.
Proof.
  apply (X18_text_mentioning_series_aborts_the_batch scalar_session
           ["CAN"; "DEU"] ["USA"] "BLR" "no series found" empty_world).
  - repeat first [ apply Forall_nil_2 | apply Forall_cons_2
                 | left; reflexivity | right; reflexivity ].
  - reflexivity.
  - reflexivity.
Defined.

(** ** Saving and loading *)

Section Persistence_further.
Context `{JsonCodec}.

Ltac unfold_io :=
  unfold save_data_to_json, load_data_from_json, try_except, with_open, json_dump,
    json_load, py_open, py_write, py_read, py_close, io_bind, next_fault, set_file,
    get_file, io_ret, io_raise, print, no_fault in *.

Lemma save_effect (data : json) (file_path : string) (w : world) :
  ∃ w', save_data_to_json data file_path w = (inr tt, w') ∧
    (∀ p, p ≠ file_path → files w' !! p = files w !! p) ∧
    (∀ n rest, faults w = Some n :: rest → files w' = files w).
Proof.
  destruct w as [fs out fl]. unfold_io. simpl.
  destruct fl as [|[n1|] [|[n2|] [|[n3|] fl]]]; simpl;
    rewrite ?lookup_insert_eq; simpl; eexists; (split; [done|]); simpl;
    (split; [intros p Hp; by rewrite ?lookup_insert_ne by done|]); by intros.
Qed.

Lemma load_frame (file_path : string) (w : world) :
  ∃ w', load_data_from_json file_path w = (inr (load_result file_path w), w') ∧
    files w' = files w ∧
    (no_fault 3 w = true → is_Some (files w !! file_path ≫= loads) →
     stdout w' = stdout w).
Proof.
  destruct w as [fs out fl]. unfold load_result. unfold_io. simpl.
  destruct (fs !! file_path) as [text|] eqn:Hfile;
    [destruct (loads text) as [v|] eqn:Hloads|];
    destruct fl as [|[n1|] [|[n2|] [|[n3|] fl]]];
    repeat (simpl; rewrite ?Hfile, ?Hloads); eexists; (split; [done|]);
    (split; [done|]); simpl; try done; by intros _ [??].
Qed.
End Persistence_further.

(** X6: whatever I/O operation fails, [save_data_to_json] returns
    normally and touches no file but its own; when the open itself fails
    it changes no file at all; when nothing fails, the file holds exactly
    the text of the data, whatever it held before. *)
Theorem X6_save_writes_only_its_own_file `{JsonCodec} (data : json) (file_path : string)
    (w : world) :
  ∃ w', save_data_to_json data file_path w = (inr tt, w') ∧
    (∀ p, p ≠ file_path → files w' !! p = files w !! p) ∧
    (∀ n rest, faults w = Some n :: rest → files w' = files w) ∧
    (no_fault 3 w = true → files w' !! file_path = Some (dumps data)).
Proof.
  destruct (save_effect data file_path w) as (w' & Hsave & Hothers & Hopen).
  exists w'. do 3 (split; [done|]). intros Hquiet.
  destruct (save_no_fault data file_path w Hquiet) as (w'' & Hsave' & Hfiles & _).
  rewrite Hsave in Hsave'. injection Hsave' as <-.
  by rewrite Hfiles, lookup_insert_eq.
Qed.

Lemma X6_witness :
  ∃ w', save_data_to_json (H := reference_codec) (JArr []) "out.json"
          (World {[ "out.json" := "old"; "other.csv" := "kept" ]} [] [])
        = (inr tt, w') ∧
    files w' !! "other.csv" = Some "kept" ∧
    files w' !! "out.json" = Some (dumps (JArr [])).
Proof.
  destruct (X6_save_writes_only_its_own_file (H := reference_codec) (JArr []) "out.json"
              (World {[ "out.json" := "old"; "other.csv" := "kept" ]} [] []))
    as (w' & Hsave & Hothers & _ & Hown).
  exists w'. split; [exact Hsave|]. split.
  - rewrite (Hothers "other.csv"); [reflexivity|discriminate].
  - apply Hown. reflexivity.
Defined.

(** X7: the last save wins: when no I/O operation fails, saving one value
    and then another to the same path and loading from it returns the
    second value; the file is replaced, not appended to. *)
Theorem X7_last_save_wins `{JsonCodec} (first second : json) (file_path : string)
    (w : world) :
  no_fault 9 w = true →
  ∃ w1 w2 w3,
    save_data_to_json first file_path w = (inr tt, w1) ∧
    save_data_to_json second file_path w1 = (inr tt, w2) ∧
    load_data_from_json file_path w2 = (inr second, w3).
Proof.
  intros [Hfirst Hrest]%(no_fault_add 3 6).
  destruct (save_no_fault first file_path w Hfirst) as (w1 & Hw1 & _ & _ & Hfaults).
  destruct (save_then_load second file_path w1) as (w2 & w3 & Hw2 & Hw3).
  { unfold no_fault. by rewrite Hfaults. }
  by exists w1, w2, w3.
Qed.

Lemma X7_witness :
  ∃ w1 w2 w3,
    save_data_to_json (H := reference_codec) (JArr [JNum 1]) "out.json" empty_world
    = (inr tt, w1) ∧
    save_data_to_json (H := reference_codec) (JArr []) "out.json" w1 = (inr tt, w2) ∧
    load_data_from_json (H := reference_codec) "out.json" w2 = (inr (JArr []), w3).
Proof. apply (X7_last_save_wins (H := reference_codec)). reflexivity. Defined.

(** X8: [load_data_from_json] never changes a file, and when the file is
    there, its text is JSON and no I/O operation fails, it returns the
    value of the text as it is, a sequence or not, and prints nothing. *)
Theorem X8_load_returns_the_value_unvalidated `{JsonCodec} (file_path : string)
    (w : world) :
  ∃ loaded w',
    load_data_from_json file_path w = (inr loaded, w') ∧
    files w' = files w ∧
    (∀ text v,
       files w !! file_path = Some text → loads text = Some v →
       no_fault 3 w = true →
       loaded = v ∧ stdout w' = stdout w).
Proof.
  destruct (load_frame file_path w) as (w' & Hload & Hfiles & Hout).
  exists (load_result file_path w), w'. split; [done|]. split; [done|].
  intros text v Hfile Hloads Hquiet. split.
  - unfold load_result. by rewrite Hquiet, Hfile, Hloads.
  - apply Hout; [done|]. rewrite Hfile. simpl. by rewrite Hloads.
Qed.

Lemma X8_witness :
  ∃ loaded w',
    load_data_from_json (H := reference_codec) "out.json"
      (World {[ "out.json" := "-7" ]} [] []) = (inr loaded, w') ∧
    loaded = JNum (-7).
Proof.
  destruct (X8_load_returns_the_value_unvalidated (H := reference_codec) "out.json"
              (World {[ "out.json" := "-7" ]} [] []))
    as (loaded & w' & Hload & _ & Hvalue).
  exists loaded, w'. split; [exact Hload|].
  apply (Hvalue "-7" (JNum (-7))); reflexivity.
Defined.

(** ** [main], from the fetches to the reloaded file *)

(** X9: when the country batch raises, [main] raises the same exception
    before anything is saved: no file has changed. One response with a
    [series] field that is not a mapping is enough. *)
Theorem X9_main_aborts_before_saving `{JsonCodec} (session : ClientSession)
    (cwd : string) (w : world) (e : exn) :
  (parse_country_data session country_codes_main w).1 = inl e →
  (main_pipeline session cwd w).1 = inl e ∧
  files (main_pipeline session cwd w).2 = files w.
Proof.
  intros Hparse.
  pose proof (fetch_combined_value session country_codes_main w) as Hvalue.
  rewrite Hparse in Hvalue.
  destruct (fetch_combined_frame session country_codes_main w) as [Hfiles _].
  destruct (fetch_combined session country_codes_main w) as [[e'|combined] w1] eqn:Hfetch;
    simpl in Hvalue, Hfiles; [|done]. injection Hvalue as ->.
  unfold main_pipeline, io_bind. by rewrite Hfetch.
Qed.

Lemma X9_witness :
  (main_pipeline (H := reference_codec) broken_session "/tmp" empty_world).1
  = inl AttributeError ∧
  files (main_pipeline (H := reference_codec) broken_session "/tmp" empty_world).2
  = files empty_world.
Proof.
  apply (X9_main_aborts_before_saving (H := reference_codec)).
  vm_compute. reflexivity.
Defined.

(** X10: once the fetch phase has returned, no I/O failure aborts [main]
    or changes [combined_data]: [main] returns it with whatever the load
    gave; when no I/O operation fails, the value loaded back is the value of
    [combined_data] and the file [EN_ATM_GHGT_AIP_sorted.json] of the working
    directory holds its text. *)
Theorem X10_main_survives_io_failures `{JsonCodec} (session : ClientSession)
    (cwd : string) (w : world) (combined_data : list (CountrySeries json)) :
  (fetch_combined session country_codes_main w).1 = inr combined_data →
  ∃ data_example w',
    main_pipeline session cwd w = (inr (combined_data, data_example), w') ∧
    (no_fault 6 w = true →
     data_example = dataset_to_json combined_data ∧
     files w' !! path_join cwd file_name = Some (dumps (dataset_to_json combined_data))).
Proof.
  intros Hfetch. unfold main_pipeline. unfold io_bind at 1.
  destruct (fetch_combined_frame session country_codes_main w)
    as [Hfiles Hfaults].
  destruct (fetch_combined session country_codes_main w) as [[e|combined] w1];
    simpl in *; [done|]. injection Hfetch as ->.
  set (file_path := path_join cwd file_name).
  unfold io_bind at 1.
  destruct (save_returns (dataset_to_json combined_data) file_path w1)
    as (w2 & line & Hsave & _). rewrite Hsave.
  unfold io_bind at 1.
  destruct (load_frame file_path w2) as (w3 & Hload & Hfiles3 & _). rewrite Hload.
  eexists _, w3. split; [done|]. intros Hquiet.
  assert (no_fault 6 w1 = true) as Hquiet1 by (unfold no_fault; by rewrite Hfaults).
  destruct (save_then_load (dataset_to_json combined_data) file_path w1 Hquiet1)
    as (w2' & w3' & Hsave' & Hload').
  rewrite Hsave in Hsave'. injection Hsave' as <-.
  rewrite Hload in Hload'. injection Hload' as Hvalue <-. split; [done|].
  rewrite Hfiles3.
  apply no_fault_add with (n := 3) (m := 3) in Hquiet1 as [Hquiet1 _].
  destruct (save_no_fault (dataset_to_json combined_data) file_path w1 Hquiet1)
    as (w2' & Hsave' & Hfiles2 & _).
  rewrite Hsave in Hsave'. injection Hsave' as <-.
  by rewrite Hfiles2, lookup_insert_eq.
Qed.

Lemma X10_witness :
  ∃ data_example w',
    main_pipeline (H := reference_codec) example_session "/tmp" empty_world
    = (inr (example_dataset_main, data_example), w') ∧
    data_example = dataset_to_json example_dataset_main ∧
    files w' !! "/tmp/EN_ATM_GHGT_AIP_sorted.json"
    = Some (dumps (dataset_to_json example_dataset_main)).
Proof.
  destruct (X10_main_survives_io_failures (H := reference_codec) example_session "/tmp"
              empty_world example_dataset_main) as (data_example & w' & Hmain & Hquiet).
  { vm_compute. reflexivity. }
  exists data_example, w'. split; [exact Hmain|]. apply Hquiet. reflexivity.
Defined.

(** ** The renderer, over all chart types *)

Lemma plot_data_pie (ds : list (CountrySeries Z)) :
  plot_data ds "pie"
  = ok (mkFigure [Pie (country_code <$> ds)
                      ((λ country, py_sum (emission <$> data country)) <$> ds)]
                 the_layout).
Proof. reflexivity. Qed.

Lemma plot_data_fall_through (ds : list (CountrySeries Z)) (graph_type : string) :
  graph_type ≠ "line" → graph_type ≠ "bar" → graph_type ≠ "pie" →
  graph_type ≠ "stacked" →
  plot_data ds graph_type = ok (mkFigure [] the_layout).
Proof.
  intros Hline Hbar Hpie Hstacked. unfold plot_data.
  by rewrite !eqb_false_of_ne by done.
Qed.

Lemma plot_data_returns (ds : list (CountrySeries Z)) (graph_type : string) :
  ∃ traces, plot_data ds graph_type = ok (mkFigure traces the_layout).
Proof.
  destruct (decide (graph_type = "line")) as [->|Hline];
    [eexists; apply plot_data_line|].
  destruct (decide (graph_type = "bar")) as [->|Hbar];
    [eexists; apply plot_data_bar|].
  destruct (decide (graph_type = "pie")) as [->|Hpie];
    [eexists; apply plot_data_pie|].
  destruct (decide (graph_type = "stacked")) as [->|Hstacked];
    [eexists; apply plot_data_stacked|].
  eexists. by apply plot_data_fall_through.
Qed.

(** Sums over a list of years. *)
Lemma sumZ_fmap_add {A} (f g : A → Z) (l : list A) :
  sumZ ((λ x, (f x + g x)%Z) <$> l) = (sumZ (f <$> l) + sumZ (g <$> l))%Z.
Proof. induction l as [|x l IH]; csimpl; [done|]. rewrite IH. lia. Qed.

Lemma sumZ_fmap_if {A} (b : bool) (f : A → Z) (l : list A) :
  sumZ ((λ x, if b then f x else 0%Z) <$> l) = if b then sumZ (f <$> l) else 0%Z.
Proof. destruct b; [done|]. induction l as [|x l IH]; csimpl; [done|]. by rewrite IH. Qed.

Lemma sumZ_zeros {A} (l : list A) : sumZ ((λ _, 0%Z) <$> l) = 0%Z.
Proof. induction l as [|x l IH]; csimpl; [done|]. by rewrite IH. Qed.

Lemma sumZ_indicator (l : list string) (x : string) (v : Z) :
  NoDup l → x ∈ l →
  sumZ ((λ y, if decide (x = y) then v else 0%Z) <$> l) = v.
Proof.
  induction 1 as [|y l Hnotin Hnd IH]; [by intros ?%elem_of_nil|].
  intros Hin. csimpl. destruct (decide (x = y)) as [->|Hne].
  - assert (sumZ ((λ y0, if decide (y = y0) then v else 0%Z) <$> l) = 0%Z) as ->; [|lia].
    clear IH Hin Hnd. induction l as [|z l IHl]; [done|]. csimpl.
    apply not_elem_of_cons in Hnotin as [Hne Hnotin].
    rewrite decide_False by done. by rewrite IHl.
  - rewrite IH; [lia|]. by apply elem_of_cons in Hin as [?|?].
Qed.

Lemma sumZ_year_totals (years : list string) (items : list (Point Z)) :
  NoDup years → (∀ p, p ∈ items → year p ∈ years) →
  sumZ ((λ y, year_total items y) <$> years) = sumZ (emission <$> items).
Proof.
  intros Hnd. induction items as [|item rest IH]; intros Hyears.
  - unfold year_total. simpl. apply sumZ_zeros.
  - csimpl. rewrite <-IH by (intros p Hp; by apply Hyears, list_elem_of_further).
    rewrite <-(sumZ_indicator years (year item) (emission item) Hnd)
      by apply Hyears, list_elem_of_here.
    rewrite <-sumZ_fmap_add. f_equal. apply list_fmap_ext. intros _ y _.
    by rewrite year_total_cons.
Qed.

Lemma sumZ_code_totals (years keys : list string) (ds : list (CountrySeries Z)) :
  NoDup years → NoDup keys →
  (∀ e p, e ∈ ds → p ∈ data e → year p ∈ years) →
  (∀ e, e ∈ ds → country_code e ∈ keys) →
  sumZ ((λ c, sumZ ((λ y, code_total ds c y) <$> years)) <$> keys) = total_emission ds.
Proof.
  intros Hyears Hkeys. induction ds as [|e rest IH]; intros Hy Hk.
  - unfold total_emission, code_total. csimpl.
    rewrite (sumZ_zeros years). apply sumZ_zeros.
  - unfold total_emission. rewrite bind_cons, sumZ_app.
    fold (total_emission rest).
    rewrite <-IH.
    2:{ intros e' p He'. by apply Hy, list_elem_of_further. }
    2:{ intros e' He'. by apply Hk, list_elem_of_further. }
    rewrite <-(sumZ_year_totals years (data e)) by
      (try done; intros p Hp; by apply (Hy e p (list_elem_of_here _ _))).
    rewrite <-(sumZ_indicator keys (country_code e)
                 (sumZ ((λ y, year_total (data e) y) <$> years)) Hkeys)
      by apply Hk, list_elem_of_here.
    rewrite <-sumZ_fmap_add. f_equal. apply list_fmap_ext. intros _ c _.
    destruct (decide (country_code e = c)) as [Hc|Hc].
    + rewrite <-sumZ_fmap_add. f_equal. apply list_fmap_ext. intros _ y _.
      by rewrite code_total_cons, decide_True.
    + rewrite Z.add_0_l. f_equal. apply list_fmap_ext. intros _ y _.
      rewrite code_total_cons, decide_False by done. lia.
Qed.

Lemma figure_total_fmap {A} (f : A → trace) (l : list A) :
  sumZ ((f <$> l) ≫= trace_values) = sumZ ((λ x, sumZ (trace_values (f x))) <$> l).
Proof.
  induction l as [|x l IH]; [done|].
  rewrite !fmap_cons, bind_cons, sumZ_app, IH. done.
Qed.

Lemma total_emission_fmap (ds : list (CountrySeries Z)) :
  total_emission ds = sumZ ((λ e, sumZ (emission <$> data e)) <$> ds).
Proof.
  unfold total_emission. induction ds as [|e ds IH]; [done|].
  rewrite bind_cons, sumZ_app, IH. done.
Qed.

(** On integers no chart loses or invents an emission: the numbers shown
    by the traces add up to the sum of all emissions of the dataset. *)
Lemma charts_conserve_the_total (ds : list (CountrySeries Z)) (graph_type : string) :
  graph_type ∈ ["line"; "bar"; "pie"; "stacked"] →
  ∃ fig, plot_data ds graph_type = ok fig ∧ figure_total fig = total_emission ds.
Proof.
  rewrite !elem_of_cons. intros [->|[->|[->|[->|Hnil]]]];
    [..|by apply elem_of_nil in Hnil].
  - eexists. split; [apply plot_data_line|].
    unfold figure_total. cbn [fig_data].
    by rewrite (figure_total_fmap scatter_of), total_emission_fmap.
  - eexists. split; [apply plot_data_bar|].
    unfold figure_total. cbn [fig_data].
    by rewrite (figure_total_fmap bar_of), total_emission_fmap.
  - eexists. split; [apply plot_data_pie|].
    unfold figure_total. cbn [fig_data]. rewrite bind_cons. cbn [trace_values].
    change ([] ≫= trace_values) with (@nil Z). rewrite app_nil_r.
    rewrite total_emission_fmap. f_equal. apply list_fmap_ext. intros _ e _.
    apply py_sum_sumZ.
  - eexists. split; [apply plot_data_stacked|].
    unfold figure_total. cbn [fig_data].
    rewrite (figure_total_fmap (stacked_bar ds)). unfold stacked_bar. cbn [trace_values].
    destruct (sorted_set_spec (all_years ds)) as (_ & Hnd & Hin).
    apply sumZ_code_totals; [done|apply first_occurrences_NoDup|..].
    + intros e p He Hp. apply Hin, all_years_elem_of. by exists e, p.
    + intros e He. apply first_occurrences_elem_of. by apply list_elem_of_fmap_2.
Qed.

Lemma sumZ_Permutation (l1 l2 : list Z) : l1 ≡ₚ l2 → sumZ l1 = sumZ l2.
Proof. induction 1; simpl; lia. Qed.

Lemma all_years_Permutation (ds ds' : list (CountrySeries Z)) :
  ds ≡ₚ ds' → all_years ds ≡ₚ all_years ds'.
Proof. intros Hperm. unfold all_years. by rewrite Hperm. Qed.

Lemma sorted_set_Permutation (ys ys' : list string) :
  ys ≡ₚ ys' → sorted_set ys = sorted_set ys'.
Proof. intros Hperm. unfold sorted_set. by rewrite Hperm. Qed.

Lemma code_total_Permutation (ds ds' : list (CountrySeries Z)) (c y : string) :
  ds ≡ₚ ds' → code_total ds c y = code_total ds' c y.
Proof. intros Hperm. unfold code_total. apply sumZ_Permutation. by rewrite Hperm. Qed.

Lemma year_total_Permutation (items items' : list (Point Z)) (y : string) :
  items ≡ₚ items' → year_total items y = year_total items' y.
Proof. intros Hperm. unfold year_total. apply sumZ_Permutation. by rewrite Hperm. Qed.

Lemma first_occurrences_Permutation (l l' : list string) :
  l ≡ₚ l' → first_occurrences l ≡ₚ first_occurrences l'.
Proof.
  intros Hperm. apply NoDup_Permutation; [apply first_occurrences_NoDup..|].
  intros x. by rewrite !first_occurrences_elem_of, Hperm.
Qed.

(** On integers the stacked chart looks at the order of the dataset only
    for the order of its bars. *)
Lemma stacked_order_insensitive (ds ds' : list (CountrySeries Z)) :
  (ds ≡ₚ ds' →
   ∃ traces traces',
     plot_data ds "stacked" = ok (mkFigure traces the_layout) ∧
     plot_data ds' "stacked" = ok (mkFigure traces' the_layout) ∧
     traces ≡ₚ traces') ∧
  (Forall2 (λ e e', country_code e = country_code e' ∧ data e ≡ₚ data e') ds ds' →
   plot_data ds "stacked" = plot_data ds' "stacked").
Proof.
  split.
  - intros Hperm. eexists _, _. split; [apply plot_data_stacked|].
    split; [apply plot_data_stacked|].
    assert (∀ c, stacked_bar ds c = stacked_bar ds' c) as Hbar.
    { intros c. unfold stacked_bar.
      rewrite (sorted_set_Permutation _ _ (all_years_Permutation _ _ Hperm)).
      f_equal. apply list_fmap_ext. intros _ y _. by apply code_total_Permutation. }
    rewrite (list_fmap_ext (stacked_bar ds) (stacked_bar ds')) by (intros; apply Hbar).
    apply fmap_Permutation, first_occurrences_Permutation. by rewrite Hperm.
  - intros Hdata. rewrite !plot_data_stacked. do 2 f_equal.
    assert (country_code <$> ds = country_code <$> ds') as Hcodes.
    { induction Hdata as [|e e' ds ds' [Hc _] _ IH]; [done|]. csimpl. by rewrite Hc, IH. }
    assert (all_years ds ≡ₚ all_years ds') as Hyears.
    { unfold all_years. induction Hdata as [|e e' ds ds' [_ Hd] _ IH]; [done|].
      rewrite !bind_cons. rewrite IH by (by injection Hcodes). by rewrite Hd. }
    assert (∀ c y, code_total ds c y = code_total ds' c y) as Htotal.
    { intros c y. clear Hcodes Hyears.
      induction Hdata as [|e e' ds ds' [Hc Hd] _ IH]; [done|].
      rewrite !code_total_cons, IH, Hc, (year_total_Permutation _ _ y Hd). done. }
    rewrite Hcodes. apply list_fmap_ext. intros _ c _. unfold stacked_bar.
    rewrite (sorted_set_Permutation _ _ Hyears). f_equal.
    apply list_fmap_ext. intros _ y _. apply Htotal.
Qed.

(** ** The renderer on the values as they were decoded *)

Lemma raw_fold_add_trace {A} (f : A → Raw.trace) (l : list A) (fig : Raw.Figure) :
  fold_left (λ fig x, Raw.add_trace fig (f x)) l fig
  = Raw.mkFigure (Raw.fig_data fig ++ (f <$> l)) (Raw.fig_layout fig).
Proof.
  revert fig. induction l as [|x l IH]; intros fig; simpl.
  - rewrite app_nil_r. by destruct fig.
  - rewrite IH. simpl. by rewrite <-app_assoc.
Qed.

Lemma raw_fold_add_bar (years : list string) (d : list (string * list Z))
    (fig : Raw.Figure) :
  fold_left (λ fig '(country_code, emissions),
               Raw.add_trace fig (Raw.Bar years (JNum <$> emissions) country_code))
            d fig
  = Raw.mkFigure (Raw.fig_data fig ++ ((λ ce, Raw.Bar years (JNum <$> ce.2) ce.1) <$> d))
                 (Raw.fig_layout fig).
Proof.
  revert fig. induction d as [|[c em] d IH]; intros fig; simpl.
  - rewrite app_nil_r. by destruct fig.
  - rewrite IH. simpl. by rewrite <-app_assoc.
Qed.

Lemma raw_plot_data_line (ds : list (CountrySeries json)) :
  Raw.plot_data ds "line"
  = ok (Raw.mkFigure
          ((λ country, Raw.Scatter (year <$> data country) (emission <$> data country)
                                   "lines+markers" (country_code country)) <$> ds)
          the_layout).
Proof.
  unfold Raw.plot_data. simpl.
  by rewrite (raw_fold_add_trace
                (λ country, Raw.Scatter (year <$> data country) (emission <$> data country)
                                        "lines+markers" (country_code country))).
Qed.

Lemma raw_plot_data_bar (ds : list (CountrySeries json)) :
  Raw.plot_data ds "bar"
  = ok (Raw.mkFigure
          ((λ country, Raw.Bar (year <$> data country) (emission <$> data country)
                               (country_code country)) <$> ds)
          the_layout).
Proof.
  unfold Raw.plot_data. simpl.
  by rewrite (raw_fold_add_trace
                (λ country, Raw.Bar (year <$> data country) (emission <$> data country)
                                    (country_code country))).
Qed.

Lemma raw_plot_data_fall_through (ds : list (CountrySeries json)) (graph_type : string) :
  graph_type ≠ "line" → graph_type ≠ "bar" → graph_type ≠ "pie" →
  graph_type ≠ "stacked" →
  Raw.plot_data ds graph_type = ok (Raw.mkFigure [] the_layout).
Proof.
  intros Hline Hbar Hpie Hstacked. unfold Raw.plot_data.
  by rewrite !eqb_false_of_ne by done.
Qed.

(** *** What the additions do *)

Lemma raw_py_add_outcome (a : Z) (x : json) :
  if addable x then ∃ z, Raw.py_add a x = ok z else Raw.py_add a x = throw TypeError.
Proof. destruct x; simpl; eauto. Qed.

Lemma raw_sum_outcome (items : list (Point json)) (a : Z) :
  if forallb (λ item, addable (emission item)) items
  then ∃ z, Raw.sum_from a (emission <$> items) = ok z
  else Raw.sum_from a (emission <$> items) = throw TypeError.
Proof.
  revert a. induction items as [|item rest IH]; intros a; [by exists a|].
  rewrite fmap_cons. cbn [forallb Raw.sum_from].
  pose proof (raw_py_add_outcome a (emission item)) as Hadd.
  destruct (addable (emission item)); simpl.
  - destruct Hadd as [z ->]. simpl. apply IH.
  - by rewrite Hadd.
Qed.

Lemma raw_pie_outcome (ds : list (CountrySeries json)) :
  if all_addable ds
  then ∃ values,
         Raw.comprehension (λ country, Raw.py_sum (emission <$> data country)) ds
         = ok values
  else Raw.comprehension (λ country, Raw.py_sum (emission <$> data country)) ds
       = throw TypeError.
Proof.
  induction ds as [|e rest IH]; [by exists []|].
  unfold all_addable in *. cbn [forallb Raw.comprehension].
  pose proof (raw_sum_outcome (data e) 0) as Hsum.
  fold (Raw.py_sum (emission <$> data e)) in Hsum.
  destruct (forallb (λ item, addable (emission item)) (data e)); simpl.
  - destruct Hsum as [z ->]. simpl.
    destruct (forallb _ rest).
    + destruct IH as [values ->]. simpl. by eexists.
    + by rewrite IH.
  - by rewrite Hsum.
Qed.

Lemma dict_getitem_elem_of {V} (d : list (string * V)) (k : string) :
  k ∈ d.*1 → ∃ v, dict_getitem d k = ok v ∧ (k, v) ∈ d.
Proof.
  induction d as [|[k' v'] d IH]; csimpl; [by intros ?%elem_of_nil|].
  destruct (String.eqb_spec k k') as [->|Hne].
  - intros _. exists v'. split; [done|]. apply list_elem_of_here.
  - intros [?|Hin]%elem_of_cons; [done|].
    destruct (IH Hin) as (v & Hget & Hv). exists v. split; [done|].
    by apply list_elem_of_further.
Qed.

Lemma dict_setitem_Forall {V} (P : string * V → Prop) (d : list (string * V))
    (k : string) (v : V) :
  Forall P d → P (k, v) → Forall P (dict_setitem k v d).
Proof.
  intros Hd Hkv. induction Hd as [|[k' v'] d Hk' Hd IH]; simpl.
  - by apply Forall_singleton.
  - destruct (String.eqb k k'); by apply Forall_cons.
Qed.

Lemma list_index_elem_of (l : list string) (x : string) :
  x ∈ l → ∃ i, list_index l x = ok i ∧ (i < length l)%nat.
Proof.
  induction l as [|y l IH]; [by intros ?%elem_of_nil|].
  intros Hin. simpl. destruct (String.eqb_spec y x) as [->|Hne].
  - exists 0%nat. split; [done|]. lia.
  - apply elem_of_cons in Hin as [->|Hin]; [done|].
    destruct (IH Hin) as (i & -> & Hi). exists (S i). split; [done|]. lia.
Qed.

(** The lookups of line 98 always succeed; only the addition can fail. *)
Lemma raw_stacked_items_outcome (years : list string) (code : string)
    (items : list (Point json)) (d : list (string * list Z)) :
  code ∈ d.*1 →
  Forall (λ kv, length kv.2 = length years) d →
  (∀ p, p ∈ items → year p ∈ years) →
  if forallb (λ item, addable (emission item)) items
  then ∃ d', Raw.stacked_items years code items d = ok d' ∧ d'.*1 = d.*1 ∧
             Forall (λ kv, length kv.2 = length years) d'
  else Raw.stacked_items years code items d = throw TypeError.
Proof.
  revert d. induction items as [|item rest IH]; intros d Hcode Hrows Hyears.
  - by exists d.
  - cbn [forallb Raw.stacked_items].
    destruct (dict_getitem_elem_of d code Hcode) as (row & -> & Hrow).
    destruct (list_index_elem_of years (year item)) as (i & -> & Hi).
    { apply Hyears, list_elem_of_here. }
    assert (length row = length years) as Hlen.
    { rewrite Forall_forall in Hrows. apply (Hrows (code, row) Hrow). }
    destruct (lookup_lt_is_Some_2 row i) as [old Hold]; [lia|].
    cbn [result_bind ok]. unfold list_getitem. rewrite Hold. cbn [result_bind ok].
    pose proof (raw_py_add_outcome old (emission item)) as Hadd.
    destruct (addable (emission item)); cbn [andb]; [|by rewrite Hadd].
    destruct Hadd as [new ->]. cbn [result_bind ok].
    specialize (IH (dict_setitem code (<[i := new]> row) d)).
    rewrite dict_setitem_keys_in in IH by done.
    apply IH; [done| |].
    + apply dict_setitem_Forall; [done|]. simpl. by rewrite length_insert.
    + intros p Hp. by apply Hyears, list_elem_of_further.
Qed.

Lemma raw_stacked_countries_outcome (years : list string)
    (ds : list (CountrySeries json)) (d : list (string * list Z)) :
  (∀ e, e ∈ ds → country_code e ∈ d.*1) →
  Forall (λ kv, length kv.2 = length years) d →
  (∀ e p, e ∈ ds → p ∈ data e → year p ∈ years) →
  if all_addable ds
  then ∃ d', Raw.stacked_countries years ds d = ok d'
  else Raw.stacked_countries years ds d = throw TypeError.
Proof.
  revert d. induction ds as [|e rest IH]; intros d Hcodes Hrows Hyears.
  - by exists d.
  - unfold all_addable in *. cbn [forallb Raw.stacked_countries].
    pose proof (raw_stacked_items_outcome years (country_code e) (data e) d) as Hitems.
    destruct (forallb (λ item, addable (emission item)) (data e)); simpl.
    + destruct Hitems as (d1 & -> & Hkeys & Hrows1); [by apply Hcodes, list_elem_of_here|done|..].
      { intros p Hp. by apply (Hyears e p (list_elem_of_here _ _)). }
      simpl. apply IH; [|done|].
      * intros e' He'. rewrite Hkeys. by apply Hcodes, list_elem_of_further.
      * intros e' p He'. by apply Hyears, list_elem_of_further.
    + rewrite Hitems; [done|by apply Hcodes, list_elem_of_here|done|].
      intros p Hp. by apply (Hyears e p (list_elem_of_here _ _)).
Qed.

Lemma raw_zero_dict_tabulate (years : list string) (ds : list (CountrySeries json)) :
  Raw.zero_dict years ds
  = (λ c, (c, replicate (length years) 0%Z)) <$> first_occurrences (country_code <$> ds).
Proof.
  unfold Raw.zero_dict.
  etrans; [apply (fold_setitem_tabulate country_code (replicate (length years) 0%Z) ds [])|].
  simpl. f_equal. apply filter_all. intros k. apply not_elem_of_nil.
Qed.

Lemma raw_all_years_elem_of (ds : list (CountrySeries json)) (y : string) :
  y ∈ Raw.all_years ds ↔ ∃ e p, e ∈ ds ∧ p ∈ data e ∧ year p = y.
Proof.
  unfold Raw.all_years. rewrite list_elem_of_bind. split.
  - intros (e & (p & Hy & Hp)%list_elem_of_bind & He).
    apply list_elem_of_singleton in Hy. by exists e, p.
  - intros (e & p & He & Hp & <-). exists e. split; [|done].
    apply list_elem_of_bind. exists p. split; [|done]. apply list_elem_of_here.
Qed.

Lemma raw_stacked_outcome (ds : list (CountrySeries json)) :
  if all_addable ds
  then ∃ traces, Raw.plot_data ds "stacked" = ok (Raw.mkFigure traces the_layout)
  else Raw.plot_data ds "stacked" = throw TypeError.
Proof.
  unfold Raw.plot_data. simpl.
  set (years := sorted_set (Raw.all_years ds)).
  destruct (sorted_set_spec (Raw.all_years ds)) as (_ & _ & Hin). fold years in Hin.
  pose proof (raw_stacked_countries_outcome years ds (Raw.zero_dict years ds)) as Hrun.
  assert (∀ e, e ∈ ds → country_code e ∈ (Raw.zero_dict years ds).*1) as Hcodes.
  { intros e He. rewrite raw_zero_dict_tabulate, <-list_fmap_compose.
    apply list_elem_of_fmap. exists (country_code e). split; [done|].
    apply first_occurrences_elem_of. by apply list_elem_of_fmap_2. }
  assert (Forall (λ kv : string * list Z, length kv.2 = length years)
            (Raw.zero_dict years ds)) as Hrows.
  { rewrite raw_zero_dict_tabulate, Forall_fmap. apply Forall_true.
    intros c. simpl. apply length_replicate. }
  assert (∀ e p, e ∈ ds → p ∈ data e → year p ∈ years) as Hyears.
  { intros e p He Hp. apply Hin, raw_all_years_elem_of. by exists e, p. }
  specialize (Hrun Hcodes Hrows Hyears).
  destruct (all_addable ds).
  - destruct Hrun as [d' ->]. simpl. rewrite raw_fold_add_bar. by eexists.
  - by rewrite Hrun.
Qed.

Lemma raw_pie_plot_outcome (ds : list (CountrySeries json)) :
  if all_addable ds
  then ∃ traces, Raw.plot_data ds "pie" = ok (Raw.mkFigure traces the_layout)
  else Raw.plot_data ds "pie" = throw TypeError.
Proof.
  unfold Raw.plot_data. simpl. pose proof (raw_pie_outcome ds) as Hpie.
  destruct (all_addable ds).
  - destruct Hpie as [values ->]. by eexists.
  - by rewrite Hpie.
Qed.

Lemma raw_plot_data_returns (ds : list (CountrySeries json)) (graph_type : string) :
  (graph_type = "pie" ∨ graph_type = "stacked" → all_addable ds = true) →
  ∃ traces, Raw.plot_data ds graph_type = ok (Raw.mkFigure traces the_layout).
Proof.
  intros Hadd.
  destruct (decide (graph_type = "line")) as [->|Hline];
    [eexists; apply raw_plot_data_line|].
  destruct (decide (graph_type = "bar")) as [->|Hbar];
    [eexists; apply raw_plot_data_bar|].
  destruct (decide (graph_type = "pie")) as [->|Hpie].
  { pose proof (raw_pie_plot_outcome ds) as Hout. by rewrite Hadd in Hout by by left. }
  destruct (decide (graph_type = "stacked")) as [->|Hstacked].
  { pose proof (raw_stacked_outcome ds) as Hout. by rewrite Hadd in Hout by by right. }
  eexists. by apply raw_plot_data_fall_through.
Qed.



(** *** Integer emissions *)

Lemma raw_sum_from_integers (zs : list Z) (a : Z) :
  Raw.sum_from a (JNum <$> zs) = ok (fold_left Z.add zs a).
Proof. revert a. induction zs as [|z zs IH]; intros a; [done|]. csimpl. apply IH. Qed.

Lemma raw_pie_integers (ds : list (CountrySeries Z)) :
  Raw.comprehension (λ country, Raw.py_sum (emission <$> data country)) (untyped ds)
  = ok ((λ country, py_sum (emission <$> data country)) <$> ds).
Proof.
  induction ds as [|e rest IH]; [done|].
  unfold untyped in *. rewrite fmap_cons. cbn [Raw.comprehension].
  rewrite IH. unfold Raw.py_sum, untyped_series. cbn [data].
  rewrite <-list_fmap_compose.
  change (emission ∘ untyped_point) with (JNum ∘ (@emission Z)).
  rewrite list_fmap_compose, raw_sum_from_integers. done.
Qed.

Lemma raw_all_years_untyped (ds : list (CountrySeries Z)) :
  Raw.all_years (untyped ds) = all_years ds.
Proof.
  unfold Raw.all_years, all_years, untyped.
  induction ds as [|e rest IH]; [done|].
  rewrite fmap_cons, !bind_cons, IH. f_equal.
  unfold untyped_series. cbn [data].
  induction (data e) as [|p ps IHp]; [done|].
  rewrite fmap_cons, !bind_cons, IHp. done.
Qed.

Lemma raw_zero_dict_untyped (years : list string) (ds : list (CountrySeries Z)) :
  Raw.zero_dict years (untyped ds) = zero_dict years ds.
Proof.
  rewrite raw_zero_dict_tabulate, zero_dict_tabulate. unfold untyped.
  by rewrite <-list_fmap_compose.
Qed.

Lemma raw_stacked_items_untyped (years : list string) (code : string)
    (items : list (Point Z)) (d : list (string * list Z)) :
  Raw.stacked_items years code (untyped_point <$> items) d
  = stacked_items years code items d.
Proof.
  revert d. induction items as [|item rest IH]; intros d; [done|].
  rewrite fmap_cons. cbn [Raw.stacked_items stacked_items].
  destruct (dict_getitem d code) as [e|row]; [done|]. simpl.
  destruct (list_index years (year item)) as [e|i]; [done|]. simpl.
  destruct (list_getitem row i) as [e|old]; [done|]. simpl. apply IH.
Qed.

Lemma raw_stacked_countries_untyped (years : list string) (ds : list (CountrySeries Z))
    (d : list (string * list Z)) :
  Raw.stacked_countries years (untyped ds) d = stacked_countries years ds d.
Proof.
  revert d. induction ds as [|e rest IH]; intros d; [done|].
  unfold untyped in *. rewrite fmap_cons. cbn [Raw.stacked_countries stacked_countries].
  unfold untyped_series at 1 2. cbn [country_code data].
  rewrite raw_stacked_items_untyped.
  destruct (stacked_items years (country_code e) (data e) d) as [err|d1]; [done|].
  simpl. apply IH.
Qed.

(** On a dataset of integers [Raw.plot_data] is [plot_data]. *)
Lemma raw_plot_data_untyped (ds : list (CountrySeries Z)) (graph_type : string) :
  Raw.plot_data (untyped ds) graph_type
  = match plot_data ds graph_type with
    | inl e => inl e
    | inr fig => inr (untyped_figure fig)
    end.
Proof.
  destruct (decide (graph_type = "line")) as [->|Hline].
  { rewrite raw_plot_data_line, plot_data_line. unfold untyped_figure, untyped. simpl.
    do 2 f_equal. rewrite <-!list_fmap_compose. apply list_fmap_ext.
    intros _ e _. simpl. unfold untyped_point. by rewrite <-!list_fmap_compose. }
  destruct (decide (graph_type = "bar")) as [->|Hbar].
  { rewrite raw_plot_data_bar, plot_data_bar. unfold untyped_figure, untyped. simpl.
    do 2 f_equal. rewrite <-!list_fmap_compose. apply list_fmap_ext.
    intros _ e _. simpl. unfold untyped_point. by rewrite <-!list_fmap_compose. }
  destruct (decide (graph_type = "pie")) as [->|Hpie].
  { rewrite plot_data_pie. unfold Raw.plot_data. simpl. rewrite raw_pie_integers.
    unfold untyped_figure, untyped. simpl. by rewrite <-list_fmap_compose. }
  destruct (decide (graph_type = "stacked")) as [->|Hstacked].
  { unfold Raw.plot_data, plot_data. simpl.
    rewrite raw_all_years_untyped, raw_zero_dict_untyped, raw_stacked_countries_untyped.
    destruct (stacked_countries _ ds _) as [e|d']; [done|]. simpl.
    rewrite raw_fold_add_bar, fold_add_bar.
    unfold untyped_figure, Raw.update_layout, update_layout. simpl.
    do 2 f_equal. rewrite <-list_fmap_compose. by apply list_fmap_ext. }
  by rewrite raw_plot_data_fall_through, plot_data_fall_through.
Qed.

Lemma forallb_eq_true_Forall {A} (f : A → bool) (l : list A) :
  forallb f l = true ↔ Forall (λ x, f x = true) l.
Proof.
  induction l as [|x l IH]; simpl; [by split; [constructor|]|].
  by rewrite andb_true_iff, Forall_cons, IH.
Qed.

Lemma all_integers_Forall (ds : list (CountrySeries json)) :
  all_integers ds = true ↔
  Forall (λ c, Forall (λ p, is_integer (emission p) = true) (data c)) ds.
Proof.
  unfold all_integers. rewrite forallb_eq_true_Forall.
  apply Forall_proper; [|done]. intros c. apply forallb_eq_true_Forall.
Qed.

Lemma untyped_typed (ds : list (CountrySeries json)) :
  all_integers ds = true → untyped (typed ds) = ds.
Proof.
  rewrite all_integers_Forall. unfold untyped, typed. rewrite <-list_fmap_compose.
  intros Hds. etrans; [|apply list_fmap_id]. apply Forall_fmap_ext_1.
  eapply Forall_impl; [done|]. intros [c items] Hitems. simpl in *.
  unfold untyped_series. simpl. f_equal. rewrite <-list_fmap_compose.
  etrans; [|apply list_fmap_id]. apply Forall_fmap_ext_1.
  eapply Forall_impl; [done|]. intros [y v] Hv. simpl in *.
  unfold untyped_point. simpl. by destruct v.
Qed.

(** X12: with integer emissions no chart loses or invents an emission: on
    a dataset all of whose emissions are integers, as the decoder gives
    them, each of the four chart types returns a figure of integers whose
    numbers add up to the sum of all emissions of the dataset. For the
    stacked chart this says that every item lands in exactly one cell of
    one vector. *)
Theorem X12_charts_conserve_the_total_of_integers (ds : list (CountrySeries json))
    (graph_type : string) :
  all_integers ds = true →
  graph_type ∈ ["line"; "bar"; "pie"; "stacked"] →
  ∃ fig,
    Raw.plot_data ds graph_type = ok (untyped_figure fig) ∧
    untyped (typed ds) = ds ∧
    figure_total fig = total_emission (typed ds).
Proof.
  intros Hints Htype. pose proof (untyped_typed ds Hints) as Hds.
  destruct (charts_conserve_the_total (typed ds) graph_type Htype) as (fig & Hfig & Htotal).
  exists fig. split; [|done].
  rewrite <-Hds at 1. by rewrite raw_plot_data_untyped, Hfig.
Qed.

Lemma X12_witness :
  ∃ fig,
    Raw.plot_data [mkSeries "A" [mkPoint "2000" (JNum 1); mkPoint "2001" (JNum 2)];
                   mkSeries "B" [mkPoint "2000" (JNum 5)];
                   mkSeries "A" [mkPoint "2001" (JNum 10)]] "stacked"
    = ok (untyped_figure fig) ∧
    untyped (typed [mkSeries "A" [mkPoint "2000" (JNum 1); mkPoint "2001" (JNum 2)];
                    mkSeries "B" [mkPoint "2000" (JNum 5)];
                    mkSeries "A" [mkPoint "2001" (JNum 10)]])
    = [mkSeries "A" [mkPoint "2000" (JNum 1); mkPoint "2001" (JNum 2)];
       mkSeries "B" [mkPoint "2000" (JNum 5)];
       mkSeries "A" [mkPoint "2001" (JNum 10)]] ∧
    figure_total fig
    = total_emission
        (typed [mkSeries "A" [mkPoint "2000" (JNum 1); mkPoint "2001" (JNum 2)];
                mkSeries "B" [mkPoint "2000" (JNum 5)];
                mkSeries "A" [mkPoint "2001" (JNum 10)]]).
Proof.
  apply X12_charts_conserve_the_total_of_integers; [reflexivity|].
  do 3 apply list_elem_of_further. apply list_elem_of_here.
Defined.

(** X13: with integer emissions the stacked chart looks at the order of the
    dataset only for the order of its bars: for two datasets of integers
    with the same entries in another order the year axis is the same and
    the bar series are the same up to their order; and reordering the
    points inside the entries changes nothing at all. *)
Theorem X13_stacked_of_integers_is_order_insensitive (ds ds' : list (CountrySeries json)) :
  all_integers ds = true →
  (ds ≡ₚ ds' →
   ∃ traces traces',
     Raw.plot_data ds "stacked" = ok (Raw.mkFigure traces the_layout) ∧
     Raw.plot_data ds' "stacked" = ok (Raw.mkFigure traces' the_layout) ∧
     traces ≡ₚ traces') ∧
  (Forall2 (λ e e', country_code e = country_code e' ∧ data e ≡ₚ data e') ds ds' →
   Raw.plot_data ds "stacked" = Raw.plot_data ds' "stacked").
Proof.
  intros Hints. pose proof (untyped_typed ds Hints) as Hds. split.
  - intros Hperm.
    assert (all_integers ds' = true) as Hints'.
    { apply all_integers_Forall. rewrite <-Hperm. by apply all_integers_Forall. }
    pose proof (untyped_typed ds' Hints') as Hds'.
    destruct (proj1 (stacked_order_insensitive (typed ds) (typed ds')))
      as (traces & traces' & Hfig & Hfig' & Htraces).
    { unfold typed. by apply fmap_Permutation. }
    exists (untyped_trace <$> traces), (untyped_trace <$> traces').
    split; [|split].
    + rewrite <-Hds at 1. by rewrite raw_plot_data_untyped, Hfig.
    + rewrite <-Hds' at 1. by rewrite raw_plot_data_untyped, Hfig'.
    + by apply fmap_Permutation.
  - intros Hdata.
    assert (all_integers ds' = true) as Hints'.
    { apply all_integers_Forall. apply all_integers_Forall in Hints.
      clear Hds. induction Hdata as [|e e' ds ds' [_ Hd] _ IH]; [done|].
      apply Forall_cons in Hints as [He Hints]. apply Forall_cons. split; [|by apply IH].
      by rewrite <-Hd. }
    pose proof (untyped_typed ds' Hints') as Hds'.
    rewrite <-Hds, <-Hds', !raw_plot_data_untyped.
    rewrite (proj2 (stacked_order_insensitive (typed ds) (typed ds'))); [done|].
    unfold typed. apply Forall2_fmap.
    eapply Forall2_impl; [done|]. intros e e' [Hc Hd]. simpl.
    split; [done|]. by apply fmap_Permutation.
Qed.

Lemma X13_witness :
  ∃ traces traces',
    Raw.plot_data [mkSeries "A" [mkPoint "2001" (JNum 2)];
                   mkSeries "B" [mkPoint "2000" (JNum 5)]] "stacked"
    = ok (Raw.mkFigure traces the_layout) ∧
    Raw.plot_data [mkSeries "B" [mkPoint "2000" (JNum 5)];
                   mkSeries "A" [mkPoint "2001" (JNum 2)]] "stacked"
    = ok (Raw.mkFigure traces' the_layout) ∧
    traces ≡ₚ traces'.
Proof.
  apply (proj1 (X13_stacked_of_integers_is_order_insensitive
                  [mkSeries "A" [mkPoint "2001" (JNum 2)];
                   mkSeries "B" [mkPoint "2000" (JNum 5)]]
                  [mkSeries "B" [mkPoint "2000" (JNum 5)];
                   mkSeries "A" [mkPoint "2001" (JNum 2)]] eq_refl)).
  apply Permutation_swap.
Defined.

(** X14: on the empty dataset the line, the bar and the stacked chart and
    the fall-through have no trace, while the pie chart still has its one
    Pie trace, with no label and no value; no chart type raises. *)
Theorem X14_empty_dataset (graph_type : string) :
  plot_data [] graph_type
  = ok (mkFigure (if decide (graph_type = "pie") then [Pie [] []] else []) the_layout).
Proof.
  destruct (decide (graph_type = "pie")) as [->|Hpie]; [done|].
  destruct (decide (graph_type = "line")) as [->|Hline]; [done|].
  destruct (decide (graph_type = "bar")) as [->|Hbar]; [done|].
  destruct (decide (graph_type = "stacked")) as [->|Hstacked].
  - by rewrite plot_data_stacked.
  - by apply plot_data_fall_through.
Qed.

(** X15: the callback depends on the selection only through the set of
    codes in it: selections with the same codes, in any order and with any
    repetition, give the same figure; a selection that holds no code of
    the dataset (the empty one, or the default USA when USA has no entry)
    gives the figure of the empty dataset; a selection that holds every
    code of the dataset gives the figure of the whole dataset. *)
Theorem X15_selection_acts_as_a_set (combined_data : list (CountrySeries Z))
    (selected_countries : list string) (graph_type : string) :
  (∀ selection',
     (∀ c, c ∈ selection' ↔ c ∈ selected_countries) →
     update_graph combined_data selection' graph_type
     = update_graph combined_data selected_countries graph_type) ∧
  ((∀ country, country ∈ combined_data → country_code country ∉ selected_countries) →
   update_graph combined_data selected_countries graph_type = plot_data [] graph_type) ∧
  ((∀ country, country ∈ combined_data → country_code country ∈ selected_countries) →
   update_graph combined_data selected_countries graph_type
   = plot_data combined_data graph_type).
Proof.
  unfold update_graph. split; [|split].
  - intros selection' Hsame. f_equal. apply list_filter_iff. intros country. apply Hsame.
  - intros Hnone. f_equal. induction combined_data as [|country rest IH]; [done|].
    rewrite filter_cons_False by apply Hnone, list_elem_of_here.
    apply IH. intros c Hc. by apply Hnone, list_elem_of_further.
  - intros Hall. f_equal. induction combined_data as [|country rest IH]; [done|].
    rewrite filter_cons_True by apply Hall, list_elem_of_here. f_equal.
    apply IH. intros c Hc. by apply Hall, list_elem_of_further.
Qed.

Lemma X15_witness :
  update_graph [mkSeries "AUS" [mkPoint "2018" 90%Z]] ["USA"] "line"
  = plot_data [] "line".
Proof.
  apply (X15_selection_acts_as_a_set [mkSeries "AUS" [mkPoint "2018" 90%Z]] ["USA"] "line").
  intros country ->%list_elem_of_singleton. simpl.
  intros Hin%list_elem_of_singleton. discriminate Hin.
Defined.

(** ** The data frame *)

Lemma dataframe_rows_cons {V} (d : CountrySeries V) (ds : list (CountrySeries V)) :
  dataframe_rows (d :: ds)
  = ((λ item, mkRow (country_code d) (year item) (emission item)) <$> data d)
    ++ dataframe_rows ds.
Proof.
  unfold dataframe_rows. rewrite bind_cons. f_equal.
Qed.

Lemma dataframe_rows_app {V} (ds1 ds2 : list (CountrySeries V)) :
  dataframe_rows (ds1 ++ ds2) = dataframe_rows ds1 ++ dataframe_rows ds2.
Proof. unfold dataframe_rows. apply bind_app. Qed.

Lemma filter_all_fmap_row {V} (c : string) (items : list (Point V)) (c' : string) :
  c' = c →
  filter (λ r, row_country_code r = c)
         ((λ item, mkRow c' (year item) (emission item)) <$> items)
  = (λ item, mkRow c' (year item) (emission item)) <$> items.
Proof.
  intros ->. induction items as [|item items IH]; [done|]. csimpl.
  rewrite filter_cons_True by done. by rewrite IH.
Qed.

Lemma filter_none_fmap_row {V} (c : string) (items : list (Point V)) (c' : string) :
  c' ≠ c →
  filter (λ r, row_country_code r = c)
         ((λ item, mkRow c' (year item) (emission item)) <$> items)
  = [].
Proof.
  intros Hne. induction items as [|item items IH]; [done|]. csimpl.
  by rewrite filter_cons_False by done.
Qed.

(** X16: the data frame of line 133 has one row per point, country by
    country in dataset order and year by year in the order of the points:
    its length is the number of points of the dataset; an entry without
    points leaves no row, so its country is absent from the frame; and the
    rows of a code, read back as points, are the points of the entries of
    that code. *)
Theorem X16_dataframe_has_one_row_per_point {V} (combined_data : list (CountrySeries V)) :
  length (dataframe_rows combined_data)
  = sum_list ((λ d, length (data d)) <$> combined_data) ∧
  (∀ pre d post,
     combined_data = pre ++ d :: post → data d = [] →
     dataframe_rows combined_data = dataframe_rows (pre ++ post)) ∧
  (∀ c,
     (λ r, mkPoint (row_year r) (row_emission r))
       <$> filter (λ r, row_country_code r = c) (dataframe_rows combined_data)
     = filter (λ d, country_code d = c) combined_data ≫= data) ∧
  (∀ c y v,
     mkRow c y v ∈ dataframe_rows combined_data ↔
     ∃ d, d ∈ combined_data ∧ country_code d = c ∧ mkPoint y v ∈ data d).
Proof.
  split; [|split; [|split]].
  - induction combined_data as [|d ds IH]; [done|].
    rewrite dataframe_rows_cons, length_app, length_fmap, IH. done.
  - intros pre d post -> Hempty.
    rewrite !dataframe_rows_app, dataframe_rows_cons, Hempty. done.
  - intros c. induction combined_data as [|d ds IH]; [done|].
    rewrite dataframe_rows_cons, filter_app, fmap_app, IH, filter_cons.
    destruct (decide (country_code d = c)) as [Hc|Hc].
    + rewrite bind_cons. f_equal.
      rewrite filter_all_fmap_row by done. rewrite <-list_fmap_compose.
      etrans; [|apply list_fmap_id]. apply list_fmap_ext. by intros _ [??] _.
    + rewrite filter_none_fmap_row by done. done.
  - intros c y v. induction combined_data as [|d ds IH].
    + split; [by intros ?%elem_of_nil|]. by intros (d & ?%elem_of_nil & _).
    + rewrite dataframe_rows_cons, elem_of_app, IH, list_elem_of_fmap. split.
      * intros [([y' v'] & [= -> -> ->] & Hin)|(d' & Hd' & Hc & Hin)].
        -- exists d. split; [apply list_elem_of_here|done].
        -- exists d'. split; [by apply list_elem_of_further|done].
      * intros (d' & [->|Hd']%elem_of_cons & <- & Hin).
        -- left. by exists (mkPoint y v).
        -- right. by exists d'.
Qed.

Lemma X16_witness :
  dataframe_rows ([mkSeries "AUS" [mkPoint "2018" 90%Z]]
                  ++ mkSeries "AUT" [] :: [mkSeries "USA" [mkPoint "2018" 7%Z]])
  = dataframe_rows ([mkSeries "AUS" [mkPoint "2018" 90%Z]]
                    ++ [mkSeries "USA" [mkPoint "2018" 7%Z]]).
Proof.
  eapply (X16_dataframe_has_one_row_per_point
            ([mkSeries "AUS" [mkPoint "2018" 90%Z]]
             ++ mkSeries "AUT" [] :: [mkSeries "USA" [mkPoint "2018" 7%Z]]));
    reflexivity.
Defined.
